(** * The MMIO accelerator handshake of [overlay_integration.ipynb]

    The notebook drives a memory-mapped accelerator through pynq's [MMIO]
    object: [load_data] copies the input words into the device window,
    [process] raises the command register, busy-waits on the acknowledge
    register, drains the output words and lowers the acknowledge register.

    The class is embedded as interaction trees over the two calls it makes
    on the register window, [mmio.read] and [mmio.write].  A tree is the
    program; what the window answers is given afterwards by a handler:
    - [h_mmio] is a window nobody else touches (a read returns the word
      written last), used for the facts about register contents;
    - [h_bus] is a window whose reads are answered by an arbitrary device
      and which records every access, used for the facts about the order
      of accesses and about the acknowledge poll.

    Under a handler a call is a tree without events: [t ≈ Ret r] says that
    the call returns [r], [t ≈ ITree.spin] that it never returns. *)

From ITree Require Import ITree ITreeFacts Events.State Events.StateFacts.
From Paco Require Import paco.
From stdpp Require Import gmap list.

Local Open Scope Z_scope.

Notation "x <- c1 ;; c2" := (ITree.bind c1 (fun x => c2))
  (at level 100, c1 at next level, right associativity) : itree_scope.
Notation "c1 ;; c2" := (ITree.bind c1 (fun _ => c2))
  (at level 100, right associativity) : itree_scope.
Local Open Scope itree_scope.

(** ** Module-level constants of the notebook *)

Definition BASE_ADDRESS : Z := 0x40000000.
Definition ADDRESS_LENGTH : Z := 0x1000.
Definition CMD_OFFSET : Z := 0x800.
Definition ACK_OFFSET : Z := 0x804.
Definition INPUT_DATA_OFFSET : Z := 0x0.
Definition OUTPUT_DATA_OFFSET : Z := 0x400.

(** ** The register window as seen by the class *)

(** Modelled from the spec: pynq's [MMIO] class, which is not among the
    sources.  The spec gives its contract as [read(offset) -> u32] and
    [write(offset, value: u32)] on byte offsets of a memory window, with no
    validation of the offset by the interface itself.  The two calls are the
    events of the trees below. *)
Variant mmioE : Type -> Type :=
| MmioRead (offset : Z) : mmioE Z
| MmioWrite (offset data : Z) : mmioE unit.

Definition mmio_read (offset : Z) : itree mmioE Z :=
  ITree.trigger (MmioRead offset).

Definition mmio_write (offset data : Z) : itree mmioE unit :=
  ITree.trigger (MmioWrite offset data).

(** ** Python control flow *)

(** [for x in xs: body], the loop body updating the local variables [l]. *)
Fixpoint for_in {E : Type -> Type} {A L : Type}
    (xs : list A) (body : A -> L -> itree E L) (l : L) : itree E L :=
  match xs with
  | [] => Ret l
  | x :: rest => l' <- body x l;; for_in rest body l'
  end.

(** [for i in range(n): body]. *)
Definition for_range {E : Type -> Type} {L : Type}
    (n : nat) (body : nat -> L -> itree E L) (l : L) : itree E L :=
  for_in (seq 0 n) body l.

(** [while cond: body]. *)
Definition while {E : Type -> Type}
    (cond : itree E bool) (body : itree E unit) : itree E unit :=
  ITree.iter
    (fun _ : unit =>
       b <- cond;;
       if b then (body;; Ret (inl tt)) else Ret (inr tt))
    tt.

(** ** The class [my_new_accelerator]

    The attribute [mmio] is the register window, reached through the events;
    [array_length] is the only other attribute. *)
Record my_new_accelerator := { array_length : nat }.

(** [__init__]: [MMIO(BASE_ADDRESS, ADDRESS_LENGTH)] maps the window and
    touches no register; then [array_length = 0] and
    [mmio.write(CMD_OFFSET, 0x0)]. *)
Definition __init__ : itree mmioE my_new_accelerator :=
  let self := {| array_length := 0 |} in
  mmio_write CMD_OFFSET 0x0;;
  Ret self.

(** [input_data[i]]: the loop index is below [len(input_data)], so the
    default is never returned (see [subscript_lookup]). *)
Definition subscript (l : list Z) (i : nat) : Z := default 0 (l !! i).

Definition load_data (self : my_new_accelerator) (input_data : list Z)
    : itree mmioE my_new_accelerator :=
  let self := {| array_length := length input_data |} in
  for_range (array_length self)
    (fun i (_ : unit) =>
       mmio_write (INPUT_DATA_OFFSET + Z.of_nat i * 4) (subscript input_data i))
    tt;;
  Ret self.

(** [process].  [output_data[i] = ...] is stdpp's update in place: the loop
    index is below the length of [output_data], where it does what Python's
    does. *)
Definition process (self : my_new_accelerator) : itree mmioE (list Z) :=
  (* Send start command to accelerator *)
  mmio_write CMD_OFFSET 0x1;;
  let output_data := replicate (array_length self) 0 in
  while (ack <- mmio_read ACK_OFFSET;; Ret (negb (ack =? 0x1))) (Ret tt);;
  (* Ack has been received *)
  output_data <-
    for_range (array_length self)
      (fun i output_data =>
         v <- mmio_read (OUTPUT_DATA_OFFSET + Z.of_nat i * 4);;
         Ret (<[i := v]> output_data))
      output_data;;
  (* Reset Ack *)
  mmio_write ACK_OFFSET 0x0;;
  Ret output_data.

(** The two halves of [process] after the start command: the busy-wait on the
    acknowledge register and the read-back of the output words.  They are the
    sub-terms of [process], named so that statements can refer to them
    ([process_unfold]). *)
Definition poll_ack : itree mmioE unit :=
  while (ack <- mmio_read ACK_OFFSET;; Ret (negb (ack =? 0x1))) (Ret tt).

Definition drain (n : nat) (output_data : list Z) : itree mmioE (list Z) :=
  for_range n
    (fun i output_data =>
       v <- mmio_read (OUTPUT_DATA_OFFSET + Z.of_nat i * 4);;
       Ret (<[i := v]> output_data))
    output_data.

Definition await_and_drain (self : my_new_accelerator) : itree mmioE (list Z) :=
  poll_ack;;
  output_data <- drain (array_length self) (replicate (array_length self) 0);;
  mmio_write ACK_OFFSET 0x0;;
  Ret output_data.

(** ** The notebook cells that exercise the class *)

(** What the accelerator does between [load_data] and [process]: it puts
    its results in the output region, one word each, then raises the
    acknowledge register.  This is the third code cell of the notebook, which
    plays the accelerator by hand through a second [MMIO] object on the same
    window, with the words written left open. *)
Definition device_reply (values : list Z) : itree mmioE unit :=
  for_range (length values)
    (fun i (_ : unit) =>
       mmio_write (OUTPUT_DATA_OFFSET + Z.of_nat i * 4) (subscript values i))
    tt;;
  mmio_write ACK_OFFSET 1.

(** Third code cell: [mmio.write(OUTPUT_DATA_OFFSET + i * 4, input_data[i] + 1)]
    for every index, then [mmio.write(ACK_OFFSET, 1)]. *)
Definition simulate_accelerator (input_data : list Z) : itree mmioE unit :=
  for_range (length input_data)
    (fun i (_ : unit) =>
       mmio_write (OUTPUT_DATA_OFFSET + Z.of_nat i * 4)
                  (subscript input_data i + 1))
    tt;;
  mmio_write ACK_OFFSET 1.

(** Second to fourth code cells: [acc = my_new_accelerator()],
    [input_data = [i for i in range(10)]], [acc.load_data(input_data)], the
    simulation, [acc.process()]. *)
Definition notebook : itree mmioE (list Z) :=
  acc <- __init__;;
  let input_data := Z.of_nat <$> seq 0 10 in
  acc <- load_data acc input_data;;
  simulate_accelerator input_data;;
  process acc.

(** ** A window that only the host touches *)

(** Modelled from the spec: the memory window behind [MMIO], a word per byte
    offset; a word the window does not list reads as [0]. *)
Definition peek (w : gmap Z Z) (offset : Z) : Z := default 0 (w !! offset).

(** Modelled from the spec: [MMIO.read] returns the word at the offset and
    [MMIO.write] stores the word handed to it, as it is, at the offset;
    neither validates the offset.  On 32-bit words this is what a 32-bit
    register does; a statement about words that are computed, not only
    copied, takes the hypothesis that they are 32-bit words ([u32]). *)
Definition h_mmio : mmioE ~> Monads.stateT (gmap Z Z) (itree void1) :=
  fun _ e w =>
    match e with
    | MmioRead offset => Ret (w, peek w offset)
    | MmioWrite offset data => Ret (<[offset := data]> w, tt)
    end.

(** The words [g i] stored at [base + i * 4] for [i < n], in the order of the
    loops of [load_data] and of the simulation cell. *)
Definition store_upto (base : Z) (g : nat -> Z) (n : nat) (w : gmap Z Z)
    : gmap Z Z :=
  foldl (fun w i => <[base + Z.of_nat i * 4 := g i]> w) w (seq 0 n).

Definition store_words (base : Z) (data : list Z) (w : gmap Z Z) : gmap Z Z :=
  store_upto base (subscript data) (length data) w.

(** The words read back from [base + i * 4], [i < n]. *)
Definition fetch_words (base : Z) (n : nat) (w : gmap Z Z) : list Z :=
  (fun i => peek w (base + Z.of_nat i * 4)) <$> seq 0 n.

(** ** A window shared with a device, with a record of the accesses *)

(** One access of the host to the window: a read with the word it returned,
    or a write with the word it stored. *)
Inductive access :=
| Rd (offset value : Z)
| Wr (offset data : Z).

(** [cursor] counts the reads made so far (the first read is number [0]) and
    [journal] lists the accesses in the order they were made. *)
Record bus := { cursor : nat; journal : list access }.

(** Modelled from the spec: [MMIO.read] and [MMIO.write] on a window that the
    device may change between any two accesses of the host, so that a read
    returns whatever the device shows at that moment: [device k offset] is
    the word at [offset] when the host makes read number [k]. *)
Definition h_bus (device : nat -> Z -> Z)
    : mmioE ~> Monads.stateT bus (itree void1) :=
  fun _ e b =>
    match e with
    | MmioRead offset =>
        let v := device (cursor b) offset in
        Ret ({| cursor := S (cursor b);
                journal := journal b ++ [Rd offset v] |}, v)
    | MmioWrite offset data =>
        Ret ({| cursor := cursor b;
                journal := journal b ++ [Wr offset data] |}, tt)
    end.

(** The writes of a journal, and the last word written to one offset. *)
Definition writes (j : list access) : list (Z * Z) :=
  omap (fun a => match a with Wr o d => Some (o, d) | Rd _ _ => None end) j.

Definition reads (j : list access) : list (Z * Z) :=
  omap (fun a => match a with Rd o v => Some (o, v) | Wr _ _ => None end) j.

Definition writes_to (offset : Z) (j : list access) : list Z :=
  snd <$> filter (fun od => od.1 = offset) (writes j).

Definition last_write (offset : Z) (j : list access) : option Z :=
  last (writes_to offset j).

(** The accesses of the loops, as journal segments. *)
Definition stored (base : Z) (g : nat -> Z) (n : nat) : list access :=
  (fun i => Wr (base + Z.of_nat i * 4) (g i)) <$> seq 0 n.

Definition stores (base : Z) (data : list Z) : list access :=
  imap (fun i d => Wr (base + Z.of_nat i * 4) d) data.

Definition polls (device : nat -> Z -> Z) (c k : nat) : list access :=
  (fun i => Rd ACK_OFFSET (device (c + i)%nat ACK_OFFSET)) <$> seq 0 k.

Definition drained (device : nat -> Z -> Z) (c n : nat) : list Z :=
  (fun i => device (c + i)%nat (OUTPUT_DATA_OFFSET + Z.of_nat i * 4)) <$> seq 0 n.

Definition drains (device : nat -> Z -> Z) (c n : nat) : list access :=
  (fun i => Rd (OUTPUT_DATA_OFFSET + Z.of_nat i * 4)
               (device (c + i)%nat (OUTPUT_DATA_OFFSET + Z.of_nat i * 4)))
    <$> seq 0 n.

(** The accesses of one [process] call that starts at read number [c], whose
    poll number [k] is the first to find the acknowledge, with [n] words to read
    back. *)
Definition process_journal (device : nat -> Z -> Z) (c k n : nat) : list access :=
  Wr CMD_OFFSET 0x1
  :: polls device c (S k) ++ drains device (c + S k) n ++ [Wr ACK_OFFSET 0x0].

(** The read number [c + k] is the first one, from read number [c] on, that
    finds [1] in the acknowledge register. *)
Definition first_ack (device : nat -> Z -> Z) (c k : nat) : Prop :=
  device (c + k)%nat ACK_OFFSET = 1 /\
  forall i, (i < k)%nat -> device (c + i)%nat ACK_OFFSET <> 1.

(** A 32-bit word, the value of a register. *)
Definition u32 (x : Z) : Prop := 0 <= x < 2 ^ 32.

(** The offset an access goes to, whether it is a multiple of the word size
    (what [MMIO] asks of its callers), and whether it lies in the
    [ADDRESS_LENGTH] bytes the class maps. *)
Definition access_offset (a : access) : Z :=
  match a with
  | Rd offset _ => offset
  | Wr offset _ => offset
  end.

Definition word_aligned (a : access) : Prop := access_offset a mod 4 = 0.

Definition in_window (a : access) : Prop :=
  0 <= access_offset a < ADDRESS_LENGTH.

(** ** Sample environments

    A bus on which nothing has happened yet, a device that shows [1] in
    every word at the host's third read and [0] at every other read, and a
    window whose acknowledge register already holds [1]. *)
Definition idle_bus : bus := {| cursor := 0; journal := [] |}.

Definition late_device : nat -> Z -> Z :=
  fun c _ => if decide (c = 2%nat) then 1 else 0.

Definition acked_window : gmap Z Z := {[ACK_OFFSET := 1]}.

(** ** Running a closed tree

    A tree without events either reaches [Ret] after finitely many silent
    steps or never does; [settles fuel t] runs at most [fuel] silent steps. *)
Fixpoint settles {R : Type} (fuel : nat) (t : itree void1 R) : option R :=
  match observe t with
  | RetF r => Some r
  | TauF t' => match fuel with O => None | S fuel' => settles fuel' t' end
  | VisF e _ => match e with end
  end.

(** * Properties *)

Example notebook_output :
  snd <$> settles 200 (interp_state h_mmio notebook ∅)
  = Some [1; 2; 3; 4; 5; 6; 7; 8; 9; 10].
Proof. vm_compute. reflexivity. Qed.

Example process_on_late_device :
  settles 20
    (interp_state (h_bus late_device) (process {| array_length := 1 |}) idle_bus)
  = Some ({| cursor := 4;
             journal := [Wr CMD_OFFSET 1; Rd ACK_OFFSET 0; Rd ACK_OFFSET 0;
                         Rd ACK_OFFSET 1; Rd OUTPUT_DATA_OFFSET 0;
                         Wr ACK_OFFSET 0] |},
          [0]).
Proof. vm_compute. reflexivity. Qed.

Example process_on_silent_device :
  settles 1000
    (interp_state (h_bus (fun _ _ => 0)) (process {| array_length := 1 |}) idle_bus)
  = None.
Proof. vm_compute. reflexivity. Qed.

Lemma process_unfold self :
  process self = (mmio_write CMD_OFFSET 0x1;; await_and_drain self).
Proof. reflexivity. Qed.

Lemma subscript_lookup (l : list Z) (i : nat) :
  (i < length l)%nat -> l !! i = Some (subscript l i).
Proof.
  intros Hi. unfold subscript.
  destruct (lookup_lt_is_Some_2 l i Hi) as [x ->]. reflexivity.
Qed.

(** ** Silent steps *)
Lemma settles_unfold {R} fuel (t : itree void1 R) :
  settles fuel t =
  match observe t with
  | RetF r => Some r
  | TauF t' => match fuel with O => None | S fuel' => settles fuel' t' end
  | VisF e _ => match e with end
  end.
Proof. destruct fuel; reflexivity. Qed.

Lemma settles_eutt {R} fuel (t : itree void1 R) r :
  settles fuel t = Some r -> t ≈ Ret r.
Proof.
  revert t. induction fuel as [|fuel IH]; intros t; rewrite settles_unfold;
    destruct (observe t) as [r'|t'|X e k] eqn:Hot; try (destruct e);
    intros H; rewrite (itree_eta t), Hot; try discriminate.
  - injection H as ->. reflexivity.
  - injection H as ->. reflexivity.
  - rewrite tau_eutt. apply IH, H.
Qed.

Lemma eutt_settles {R} (t : itree void1 R) r :
  t ≈ Ret r -> exists fuel, settles fuel t = Some r.
Proof.
  intros H. punfold H. red in H. cbn in H.
  remember (observe t) as ot eqn:Hot. remember (RetF r) as oret eqn:Hor.
  revert t Hot. induction H; intros t Hot.
  all: try (exfalso; congruence).
  - injection Hor as ->. subst r1. exists 0%nat.
    rewrite (settles_unfold 0 t). rewrite <- Hot. reflexivity.
  - destruct (IHeqitF Hor t1 eq_refl) as [fuel Hf].
    exists (S fuel). rewrite settles_unfold, <- Hot. exact Hf.
Qed.

Lemma settles_euttge {R} fuel (t u : itree void1 R) r :
  t ≳ u -> settles fuel t = Some r -> settles fuel u = Some r.
Proof.
  revert t u. induction fuel as [|fuel IH]; intros t u Htu Ht.
  all: rewrite (settles_unfold _ t) in Ht; rewrite (settles_unfold _ u).
  all: assert (Hobs : go (observe t) ≳ go (observe u))
         by (rewrite <- !itree_eta; exact Htu).
  all: destruct (observe t) as [r'|t'|X e k]; try (destruct e); try discriminate.
  all: destruct (observe u) as [r''|u'|X e k]; try (destruct e).
  - apply eqit_inv_Ret in Hobs. congruence.
  - apply eqit_inv in Hobs. cbn in Hobs. contradiction.
  - apply eqit_inv_Ret in Hobs. congruence.
  - apply eqit_inv in Hobs. cbn in Hobs. contradiction.
  - apply settles_eutt in Ht. apply euttge_sub_eutt in Hobs.
    rewrite tau_eutt, Ht in Hobs. apply eutt_inv_Ret in Hobs. congruence.
  - apply eqit_inv_Tau in Hobs. eapply IH; eassumption.
Qed.

(** ** Runs of the control-flow combinators, for any handler *)

Section Runs.
Context {St : Type} (h : mmioE ~> Monads.stateT St (itree void1)).

Lemma run_trigger {T} (e : mmioE T) (s : St) :
  interp_state h (ITree.trigger e) s ≳ h _ e s.
Proof.
  rewrite interp_state_trigger_eqit.
  rewrite <- (bind_ret_r (h T e s)) at 2.
  eapply eqit_bind; [reflexivity|]. intros r. apply tau_euttge.
Qed.

Lemma run_for_in {A L} (body : A -> L -> itree mmioE L)
    (f : A -> St * L -> St * L) :
  (forall x l s, interp_state h (body x l) s ≳ Ret (f x (s, l))) ->
  forall xs l s,
    interp_state h (for_in xs body l) s
    ≳ Ret (foldl (fun acc x => f x acc) (s, l) xs).
Proof.
  intros Hbody xs. induction xs as [|x xs IH]; intros l s; cbn.
  - rewrite interp_state_ret. reflexivity.
  - rewrite interp_state_bind, Hbody, bind_ret_l.
    destruct (f x (s, l)) as [s' l']. cbn. apply IH.
Qed.

Lemma run_while_exit cond body s s' :
  interp_state h cond s ≳ Ret (s', false) ->
  interp_state h (while cond body) s ≳ Ret (s', tt).
Proof.
  intros Hc. unfold while. rewrite unfold_iter.
  rewrite bind_bind, interp_state_bind, Hc, bind_ret_l. cbn.
  rewrite bind_ret_l, interp_state_ret. reflexivity.
Qed.

Lemma run_while_again cond body s s' s'' :
  interp_state h cond s ≳ Ret (s', true) ->
  interp_state h body s' ≳ Ret (s'', tt) ->
  interp_state h (while cond body) s
  ≳ Tau (interp_state h (while cond body) s'').
Proof.
  intros Hc Hb. unfold while. rewrite unfold_iter at 1.
  rewrite bind_bind, interp_state_bind, Hc, bind_ret_l. cbn.
  rewrite bind_bind, interp_state_bind, Hb, bind_ret_l. cbn.
  rewrite bind_ret_l, interp_state_tau. reflexivity.
Qed.

Lemma run_while_spin (I : St -> Prop) cond body :
  (forall s, I s -> exists s' s'', I s'' /\
      interp_state h cond s ≳ Ret (s', true) /\
      interp_state h body s' ≳ Ret (s'', tt)) ->
  forall s, I s -> interp_state h (while cond body) s ≈ ITree.spin.
Proof.
  intros Hstep. einit. ecofix CIH. intros s Hs.
  destruct (Hstep s Hs) as (s' & s'' & Hs'' & Hc & Hb).
  rewrite (run_while_again _ _ _ _ _ Hc Hb).
  rewrite (itree_eta ITree.spin). cbn.
  etau.
Qed.

End Runs.

(** ** Pure facts about the closed forms *)

Lemma store_upto_S base g n w :
  store_upto base g (S n) w
  = <[base + Z.of_nat n * 4 := g n]> (store_upto base g n w).
Proof. unfold store_upto. rewrite seq_S, foldl_app. reflexivity. Qed.

Lemma lookup_store_upto_lt base g n w i :
  (i < n)%nat -> store_upto base g n w !! (base + Z.of_nat i * 4) = Some (g i).
Proof.
  induction n as [|n IH]; intros Hi; [lia|].
  rewrite store_upto_S. destruct (decide (i = n)) as [->|Hne].
  - apply lookup_insert_eq.
  - rewrite lookup_insert_ne by lia. apply IH. lia.
Qed.

Lemma lookup_store_upto_ne base g n w offset :
  (forall i, (i < n)%nat -> offset <> base + Z.of_nat i * 4) ->
  store_upto base g n w !! offset = w !! offset.
Proof.
  induction n as [|n IH]; intros Hoff; [reflexivity|].
  rewrite store_upto_S, lookup_insert_ne.
  - apply IH. intros i Hi. apply Hoff. lia.
  - intros Heq. apply (Hoff n); [lia|]. congruence.
Qed.

Lemma store_upto_ext base g g' n w :
  (forall i, (i < n)%nat -> g i = g' i) ->
  store_upto base g n w = store_upto base g' n w.
Proof.
  induction n as [|n IH]; intros Hg; [reflexivity|].
  rewrite !store_upto_S, (Hg n) by lia.
  rewrite IH; [reflexivity|]. intros i Hi. apply Hg. lia.
Qed.

Lemma fill_seq (g : nat -> Z) (out : list Z) k :
  (k <= length out)%nat ->
  foldl (fun o i => <[i := g i]> o) out (seq 0 k) = (g <$> seq 0 k) ++ drop k out.
Proof.
  induction k as [|k IH]; intros Hk; [reflexivity|].
  rewrite seq_S, foldl_app, IH by lia. cbn.
  rewrite fmap_app. cbn.
  assert (Hlen : length (g <$> seq 0 k) = k) by (rewrite length_fmap, length_seq; reflexivity).
  rewrite <- (Nat.add_0_r k) at 1. rewrite <- Hlen at 1.
  rewrite insert_app_r.
  destruct (drop k out) as [|x rest] eqn:Hd.
  - apply (f_equal length) in Hd. rewrite length_drop in Hd. cbn in Hd. lia.
  - cbn. rewrite <- app_assoc. cbn. do 2 f_equal.
    replace (S k) with (k + 1)%nat by lia.
    rewrite <- drop_drop, Hd. reflexivity.
Qed.

Lemma fill_replicate (g : nat -> Z) n :
  foldl (fun o i => <[i := g i]> o) (replicate n 0) (seq 0 n) = g <$> seq 0 n.
Proof.
  rewrite fill_seq by (rewrite length_replicate; lia).
  rewrite drop_ge by (rewrite length_replicate; lia). apply app_nil_r.
Qed.

Lemma spin_bind {E A B} (k : A -> itree E B) :
  ITree.bind (@ITree.spin E A) k ≈ ITree.spin.
Proof.
  einit. ecofix CIH.
  rewrite (itree_eta (@ITree.spin E A)), (itree_eta (@ITree.spin E B)). cbn.
  rewrite bind_tau. etau.
Qed.

(** ** Runs on the window that only the host touches *)

Lemma run_mmio_write offset data w :
  interp_state h_mmio (mmio_write offset data) w ≳ Ret (<[offset := data]> w, tt).
Proof. apply (run_trigger h_mmio). Qed.

Lemma run_mmio_read offset w :
  interp_state h_mmio (mmio_read offset) w ≳ Ret (w, peek w offset).
Proof. apply (run_trigger h_mmio). Qed.

Lemma run_mmio_store base g n w :
  interp_state h_mmio
    (for_range n (fun i (_ : unit) => mmio_write (base + Z.of_nat i * 4) (g i)) tt) w
  ≳ Ret (store_upto base g n w, tt).
Proof.
  unfold for_range.
  rewrite (run_for_in h_mmio _
             (fun i st => (<[base + Z.of_nat i * 4 := g i]> st.1, st.2)))
    by (intros x [] s; apply run_mmio_write).
  unfold store_upto. generalize (seq 0 n) as xs. intros xs. revert w.
  induction xs as [|x xs IH]; intros w; [reflexivity|]. cbn. apply IH.
Qed.

Lemma run_mmio_init w :
  interp_state h_mmio __init__ w
  ≳ Ret (<[CMD_OFFSET := 0]> w, {| array_length := 0 |}).
Proof.
  unfold __init__. rewrite interp_state_bind, run_mmio_write, bind_ret_l.
  cbn. rewrite interp_state_ret. reflexivity.
Qed.

Lemma run_mmio_load_data self input_data w :
  interp_state h_mmio (load_data self input_data) w
  ≳ Ret (store_words INPUT_DATA_OFFSET input_data w,
         {| array_length := length input_data |}).
Proof.
  unfold load_data. cbn [array_length].
  rewrite interp_state_bind, run_mmio_store, bind_ret_l.
  cbn. rewrite interp_state_ret. reflexivity.
Qed.

Lemma run_mmio_device_reply values w :
  interp_state h_mmio (device_reply values) w
  ≳ Ret (<[ACK_OFFSET := 1]> (store_words OUTPUT_DATA_OFFSET values w), tt).
Proof.
  unfold device_reply.
  rewrite interp_state_bind, run_mmio_store, bind_ret_l. cbn.
  apply run_mmio_write.
Qed.

Lemma run_mmio_poll_ack_exit w :
  peek w ACK_OFFSET = 1 -> interp_state h_mmio poll_ack w ≳ Ret (w, tt).
Proof.
  intros Hack. apply run_while_exit.
  rewrite interp_state_bind, run_mmio_read, bind_ret_l. cbn.
  rewrite interp_state_ret, Hack. reflexivity.
Qed.

Lemma run_mmio_poll_ack_spin w :
  peek w ACK_OFFSET <> 1 -> interp_state h_mmio poll_ack w ≈ ITree.spin.
Proof.
  intros Hack.
  apply (run_while_spin h_mmio (fun w => peek w ACK_OFFSET <> 1)); [|exact Hack].
  intros s Hs. exists s, s. split; [exact Hs|]. split.
  - rewrite interp_state_bind, run_mmio_read, bind_ret_l. cbn.
    rewrite interp_state_ret. destruct (Z.eqb_spec (peek s ACK_OFFSET) 1); [contradiction|].
    reflexivity.
  - rewrite interp_state_ret. reflexivity.
Qed.

Lemma run_mmio_drain n w :
  interp_state h_mmio (drain n (replicate n 0)) w
  ≳ Ret (w, fetch_words OUTPUT_DATA_OFFSET n w).
Proof.
  unfold drain, for_range.
  rewrite (run_for_in h_mmio _
             (fun i st => (st.1, <[i := peek st.1 (OUTPUT_DATA_OFFSET + Z.of_nat i * 4)]> st.2))).
  - unfold fetch_words. rewrite <- fill_replicate.
    generalize (replicate n 0) as out. generalize (seq 0 n) as xs.
    induction xs as [|x xs IH]; intros out; [reflexivity|]. cbn. apply IH.
  - intros i out s. rewrite interp_state_bind, run_mmio_read, bind_ret_l. cbn.
    rewrite interp_state_ret. reflexivity.
Qed.

Lemma run_mmio_process self w :
  peek w ACK_OFFSET = 1 ->
  interp_state h_mmio (process self) w
  ≳ Ret (<[ACK_OFFSET := 0]> (<[CMD_OFFSET := 1]> w),
         fetch_words OUTPUT_DATA_OFFSET (array_length self) (<[CMD_OFFSET := 1]> w)).
Proof.
  intros Hack. rewrite process_unfold. unfold await_and_drain.
  rewrite interp_state_bind, run_mmio_write, bind_ret_l. cbn.
  rewrite interp_state_bind, run_mmio_poll_ack_exit, bind_ret_l; cbn.
  - rewrite interp_state_bind, run_mmio_drain, bind_ret_l. cbn.
    rewrite interp_state_bind, run_mmio_write, bind_ret_l. cbn.
    rewrite interp_state_ret. reflexivity.
  - unfold peek. rewrite lookup_insert_ne by (unfold CMD_OFFSET, ACK_OFFSET; lia).
    exact Hack.
Qed.

Lemma run_mmio_process_spin self w :
  peek w ACK_OFFSET <> 1 -> interp_state h_mmio (process self) w ≈ ITree.spin.
Proof.
  intros Hack. rewrite process_unfold. unfold await_and_drain.
  rewrite interp_state_bind, run_mmio_write, bind_ret_l. cbn.
  rewrite interp_state_bind, run_mmio_poll_ack_spin.
  - apply spin_bind.
  - unfold peek. rewrite lookup_insert_ne by (unfold CMD_OFFSET, ACK_OFFSET; lia).
    exact Hack.
Qed.

(** ** Runs on the window shared with a device *)

Section Bus.
Context (device : nat -> Z -> Z).

Lemma run_bus_write offset data b :
  interp_state (h_bus device) (mmio_write offset data) b
  ≳ Ret ({| cursor := cursor b; journal := journal b ++ [Wr offset data] |}, tt).
Proof. apply (run_trigger (h_bus device)). Qed.

Lemma run_bus_read offset b :
  interp_state (h_bus device) (mmio_read offset) b
  ≳ Ret ({| cursor := S (cursor b);
            journal := journal b ++ [Rd offset (device (cursor b) offset)] |},
         device (cursor b) offset).
Proof. apply (run_trigger (h_bus device)). Qed.

Lemma stored_S base g n :
  stored base g (S n) = stored base g n ++ [Wr (base + Z.of_nat n * 4) (g n)].
Proof. unfold stored. rewrite seq_S, fmap_app. reflexivity. Qed.

Lemma run_bus_store base g n b :
  interp_state (h_bus device)
    (for_range n (fun i (_ : unit) => mmio_write (base + Z.of_nat i * 4) (g i)) tt) b
  ≳ Ret ({| cursor := cursor b; journal := journal b ++ stored base g n |}, tt).
Proof.
  unfold for_range.
  rewrite (run_for_in (h_bus device) _
             (fun i st => ({| cursor := cursor st.1;
                              journal := journal st.1 ++ [Wr (base + Z.of_nat i * 4) (g i)] |},
                           st.2)))
    by (intros x [] s; apply run_bus_write).
  match goal with |- Ret ?x ≳ Ret ?y => enough (x = y) as -> by reflexivity end.
  induction n as [|n IH].
  - cbn. unfold stored. cbn. rewrite app_nil_r. destruct b; reflexivity.
  - rewrite seq_S, foldl_app, IH, stored_S, app_assoc. reflexivity.
Qed.

Lemma drains_S c n :
  drains device c (S n)
  = drains device c n
    ++ [Rd (OUTPUT_DATA_OFFSET + Z.of_nat n * 4)
           (device (c + n)%nat (OUTPUT_DATA_OFFSET + Z.of_nat n * 4))].
Proof. unfold drains. rewrite seq_S, fmap_app. reflexivity. Qed.

Lemma run_bus_drain n b :
  interp_state (h_bus device) (drain n (replicate n 0)) b
  ≳ Ret ({| cursor := (cursor b + n)%nat;
            journal := journal b ++ drains device (cursor b) n |},
         drained device (cursor b) n).
Proof.
  unfold drain, for_range.
  rewrite (run_for_in (h_bus device) _
             (fun i st =>
                let v := device (cursor st.1) (OUTPUT_DATA_OFFSET + Z.of_nat i * 4) in
                ({| cursor := S (cursor st.1);
                    journal := journal st.1
                               ++ [Rd (OUTPUT_DATA_OFFSET + Z.of_nat i * 4) v] |},
                 <[i := v]> st.2))).
  - unfold drained.
    rewrite <- (fill_replicate
                  (fun i => device (cursor b + i)%nat (OUTPUT_DATA_OFFSET + Z.of_nat i * 4)) n).
    generalize (replicate n 0) as out. intros out.
    match goal with |- Ret ?x ≳ Ret ?y => enough (x = y) as -> by reflexivity end.
    induction n as [|n IH].
    + cbn. unfold drains. cbn. rewrite app_nil_r, Nat.add_0_r. destruct b; reflexivity.
    + rewrite !seq_S, !foldl_app, IH, drains_S, app_assoc, Nat.add_succ_r.
      reflexivity.
  - intros i out s. rewrite interp_state_bind, run_bus_read, bind_ret_l. cbn.
    rewrite interp_state_ret. reflexivity.
Qed.

Lemma polls_S c k :
  polls device c (S k) = polls device c k ++ [Rd ACK_OFFSET (device (c + k)%nat ACK_OFFSET)].
Proof. unfold polls. rewrite seq_S, fmap_app. reflexivity. Qed.

Lemma polls_cons c k :
  polls device c (S k) = Rd ACK_OFFSET (device c ACK_OFFSET) :: polls device (S c) k.
Proof.
  unfold polls. cbn. rewrite Nat.add_0_r. f_equal.
  rewrite <- fmap_S_seq, <- list_fmap_compose. apply list_fmap_ext.
  intros i x _. cbn. rewrite Nat.add_succ_r. reflexivity.
Qed.

Lemma run_bus_poll_exit c j :
  device c ACK_OFFSET = 1 ->
  interp_state (h_bus device) poll_ack {| cursor := c; journal := j |}
  ≳ Ret ({| cursor := S c; journal := j ++ [Rd ACK_OFFSET (device c ACK_OFFSET)] |}, tt).
Proof.
  intros Hack. apply run_while_exit.
  rewrite interp_state_bind, run_bus_read, bind_ret_l. cbn.
  rewrite interp_state_ret, Hack. reflexivity.
Qed.

Lemma run_bus_poll_step c j :
  device c ACK_OFFSET <> 1 ->
  interp_state (h_bus device) poll_ack {| cursor := c; journal := j |}
  ≳ Tau (interp_state (h_bus device) poll_ack
           {| cursor := S c; journal := j ++ [Rd ACK_OFFSET (device c ACK_OFFSET)] |}).
Proof.
  intros Hack. eapply run_while_again.
  - rewrite interp_state_bind, run_bus_read, bind_ret_l. cbn.
    rewrite interp_state_ret.
    destruct (Z.eqb_spec (device c ACK_OFFSET) 1); [contradiction|]. reflexivity.
  - rewrite interp_state_ret. reflexivity.
Qed.

Lemma run_bus_poll_prefix n : forall c j,
  (forall i, (i < n)%nat -> device (c + i)%nat ACK_OFFSET <> 1) ->
  interp_state (h_bus device) poll_ack {| cursor := c; journal := j |}
  ≳ interp_state (h_bus device) poll_ack
      {| cursor := (c + n)%nat; journal := j ++ polls device c n |}.
Proof.
  induction n as [|n IH]; intros c j Hn.
  - unfold polls. cbn. rewrite app_nil_r, Nat.add_0_r. reflexivity.
  - rewrite run_bus_poll_step, tau_euttge.
    + rewrite IH.
      * rewrite polls_cons, <- app_assoc, Nat.add_succ_r. reflexivity.
      * intros i Hi. replace (S c + i)%nat with (c + S i)%nat by lia.
        apply Hn. lia.
    + rewrite <- (Nat.add_0_r c). apply Hn. lia.
Qed.

Lemma run_bus_poll c j k :
  first_ack device c k ->
  interp_state (h_bus device) poll_ack {| cursor := c; journal := j |}
  ≳ Ret ({| cursor := (c + S k)%nat; journal := j ++ polls device c (S k) |}, tt).
Proof.
  intros [Hk Hlt]. rewrite (run_bus_poll_prefix k) by exact Hlt.
  rewrite run_bus_poll_exit by exact Hk.
  rewrite polls_S, app_assoc, Nat.add_succ_r. reflexivity.
Qed.

Lemma run_bus_poll_spin b :
  (forall k, device (cursor b + k)%nat ACK_OFFSET <> 1) ->
  interp_state (h_bus device) poll_ack b ≈ ITree.spin.
Proof.
  apply (run_while_spin (h_bus device)
           (fun b => forall k, device (cursor b + k)%nat ACK_OFFSET <> 1)).
  intros [c j] Hs. cbn in Hs.
  exists {| cursor := S c; journal := j ++ [Rd ACK_OFFSET (device c ACK_OFFSET)] |}.
  exists {| cursor := S c; journal := j ++ [Rd ACK_OFFSET (device c ACK_OFFSET)] |}.
  split; [|split].
  - intros k. cbn [cursor]. replace (S c + k)%nat with (c + S k)%nat by lia.
    apply Hs.
  - rewrite interp_state_bind, run_bus_read, bind_ret_l. cbn.
    rewrite interp_state_ret.
    destruct (Z.eqb_spec (device c ACK_OFFSET) 1) as [Heq|]; [|reflexivity].
    exfalso. apply (Hs 0%nat). rewrite Nat.add_0_r. exact Heq.
  - rewrite interp_state_ret. reflexivity.
Qed.

Lemma bus_poll_settles fuel : forall c j r,
  settles fuel (interp_state (h_bus device) poll_ack {| cursor := c; journal := j |})
  = Some r ->
  exists k, device (c + k)%nat ACK_OFFSET = 1.
Proof.
  induction fuel as [|fuel IH]; intros c j r Hr;
    (destruct (decide (device c ACK_OFFSET = 1)) as [Hack|Hack];
     [exists 0%nat; rewrite Nat.add_0_r; exact Hack|]);
    apply (settles_euttge _ _ _ _ (run_bus_poll_step c j Hack)) in Hr;
    rewrite settles_unfold in Hr; cbn in Hr; [discriminate|].
  destruct (IH _ _ _ Hr) as [k Hk]. exists (S k).
  replace (c + S k)%nat with (S c + k)%nat by lia. exact Hk.
Qed.

Lemma first_ack_exists c k :
  device (c + k)%nat ACK_OFFSET = 1 -> exists k', first_ack device c k'.
Proof.
  revert c. induction k as [|k IH]; intros c Hk.
  - exists 0%nat. split; [exact Hk|]. intros i Hi. lia.
  - destruct (decide (device c ACK_OFFSET = 1)) as [Hack|Hack].
    + exists 0%nat. split; [rewrite Nat.add_0_r; exact Hack|]. intros i Hi. lia.
    + destruct (IH (S c)) as [k' [Hk' Hlt]].
      { replace (S c + k)%nat with (c + S k)%nat by lia. exact Hk. }
      exists (S k'). split.
      * replace (c + S k')%nat with (S c + k')%nat by lia. exact Hk'.
      * intros [|i] Hi; [rewrite Nat.add_0_r; exact Hack|].
        replace (c + S i)%nat with (S c + i)%nat by lia. apply Hlt. lia.
Qed.


Lemma run_bus_init b :
  interp_state (h_bus device) __init__ b
  ≳ Ret ({| cursor := cursor b; journal := journal b ++ [Wr CMD_OFFSET 0] |},
         {| array_length := 0 |}).
Proof.
  unfold __init__. rewrite interp_state_bind, run_bus_write, bind_ret_l.
  cbn. rewrite interp_state_ret. reflexivity.
Qed.

Lemma run_bus_load_data self input_data b :
  interp_state (h_bus device) (load_data self input_data) b
  ≳ Ret ({| cursor := cursor b;
            journal := journal b
                       ++ stored INPUT_DATA_OFFSET (subscript input_data)
                            (length input_data) |},
         {| array_length := length input_data |}).
Proof.
  unfold load_data. cbn [array_length].
  rewrite interp_state_bind, run_bus_store, bind_ret_l.
  cbn. rewrite interp_state_ret. reflexivity.
Qed.

Lemma run_bus_await self c j k :
  first_ack device c k ->
  interp_state (h_bus device) (await_and_drain self) {| cursor := c; journal := j |}
  ≳ Ret ({| cursor := (c + S k + array_length self)%nat;
            journal := j ++ polls device c (S k)
                         ++ drains device (c + S k) (array_length self)
                         ++ [Wr ACK_OFFSET 0] |},
         drained device (c + S k) (array_length self)).
Proof.
  intros Hk. unfold await_and_drain.
  rewrite interp_state_bind, (run_bus_poll c j k Hk), bind_ret_l. cbn.
  rewrite interp_state_bind, run_bus_drain, bind_ret_l. cbn.
  rewrite interp_state_bind, run_bus_write, bind_ret_l. cbn.
  rewrite interp_state_ret, <- !app_assoc. reflexivity.
Qed.

Lemma run_bus_process self b k :
  first_ack device (cursor b) k ->
  interp_state (h_bus device) (process self) b
  ≳ Ret ({| cursor := (cursor b + S k + array_length self)%nat;
            journal := journal b
                       ++ process_journal device (cursor b) k (array_length self) |},
         drained device (cursor b + S k) (array_length self)).
Proof.
  intros Hk. rewrite process_unfold.
  rewrite interp_state_bind, run_bus_write, bind_ret_l. cbn.
  rewrite (run_bus_await self _ _ k Hk).
  unfold process_journal. rewrite <- app_assoc. reflexivity.
Qed.

Lemma run_bus_process_prefix self b n :
  (forall i, (i < n)%nat -> device (cursor b + i)%nat ACK_OFFSET <> 1) ->
  interp_state (h_bus device) (process self) b
  ≳ interp_state (h_bus device) (await_and_drain self)
      {| cursor := (cursor b + n)%nat;
         journal := journal b ++ Wr CMD_OFFSET 1 :: polls device (cursor b) n |}.
Proof.
  intros Hn. rewrite process_unfold.
  rewrite interp_state_bind, run_bus_write, bind_ret_l. cbn.
  unfold await_and_drain.
  rewrite !interp_state_bind, (run_bus_poll_prefix n _ _ Hn), <- app_assoc.
  reflexivity.
Qed.

Lemma run_bus_process_spin self b :
  (forall k, device (cursor b + k)%nat ACK_OFFSET <> 1) ->
  interp_state (h_bus device) (process self) b ≈ ITree.spin.
Proof.
  intros Hnever. rewrite process_unfold.
  rewrite interp_state_bind, run_bus_write, bind_ret_l. cbn.
  unfold await_and_drain.
  rewrite interp_state_bind, run_bus_poll_spin by exact Hnever.
  apply spin_bind.
Qed.

Lemma run_bus_process_inv self b r :
  interp_state (h_bus device) (process self) b ≈ Ret r ->
  exists k, first_ack device (cursor b) k.
Proof.
  intros Hr. rewrite process_unfold in Hr.
  rewrite interp_state_bind, run_bus_write, bind_ret_l in Hr. cbn in Hr.
  unfold await_and_drain in Hr. rewrite interp_state_bind in Hr.
  apply eutt_inv_bind_ret in Hr. destruct Hr as (a & Ha & _).
  apply eutt_settles in Ha. destruct Ha as [fuel Hfuel].
  apply bus_poll_settles in Hfuel. destruct Hfuel as [k Hk].
  apply (first_ack_exists _ k Hk).
Qed.

End Bus.

(** ** Words of a region and entries of a journal *)

Lemma subscript_seq (l : list Z) : subscript l <$> seq 0 (length l) = l.
Proof.
  apply list_eq. intros i. rewrite list_lookup_fmap.
  destruct (decide (i < length l)%nat) as [Hi|Hi].
  - rewrite lookup_seq_lt by exact Hi. cbn. symmetry. apply subscript_lookup, Hi.
  - rewrite lookup_seq_ge, lookup_ge_None_2 by lia. reflexivity.
Qed.

Lemma subscript_Some (l : list Z) i d : l !! i = Some d -> subscript l i = d.
Proof. intros H. unfold subscript. rewrite H. reflexivity. Qed.

Lemma stored_stores base data :
  stored base (subscript data) (length data) = stores base data.
Proof.
  unfold stored, stores. apply list_eq. intros i.
  rewrite list_lookup_fmap, list_lookup_imap.
  destruct (decide (i < length data)%nat) as [Hi|Hi].
  - rewrite lookup_seq_lt, (subscript_lookup data i) by exact Hi. reflexivity.
  - rewrite lookup_seq_ge, lookup_ge_None_2 by lia. reflexivity.
Qed.

Lemma lookup_stores base data i d :
  data !! i = Some d ->
  stores base data !! i = Some (Wr (base + Z.of_nat i * 4) d).
Proof. intros H. unfold stores. rewrite list_lookup_imap, H. reflexivity. Qed.

Lemma length_stores base data : length (stores base data) = length data.
Proof. unfold stores. apply length_imap. Qed.

Lemma peek_store_words_lt base data w i d :
  data !! i = Some d -> peek (store_words base data w) (base + Z.of_nat i * 4) = d.
Proof.
  intros H. unfold peek, store_words.
  rewrite lookup_store_upto_lt by (apply lookup_lt_Some in H; exact H).
  apply subscript_Some, H.
Qed.

Lemma peek_store_words_ne base data w offset :
  (forall i, (i < length data)%nat -> offset <> base + Z.of_nat i * 4) ->
  peek (store_words base data w) offset = peek w offset.
Proof.
  intros H. unfold peek, store_words. rewrite lookup_store_upto_ne by exact H.
  reflexivity.
Qed.

Lemma peek_insert_eq w offset data : peek (<[offset := data]> w) offset = data.
Proof. unfold peek. rewrite lookup_insert_eq. reflexivity. Qed.

Lemma peek_insert_ne w offset offset' data :
  offset <> offset' -> peek (<[offset := data]> w) offset' = peek w offset'.
Proof. intros H. unfold peek. rewrite lookup_insert_ne by exact H. reflexivity. Qed.

(** Whether [offset] is one of the words [base + i * 4], [i < n]. *)
Lemma word_of_region base n offset :
  {i | (i < n)%nat /\ offset = base + Z.of_nat i * 4}
  + {forall i, (i < n)%nat -> offset <> base + Z.of_nat i * 4}.
Proof.
  destruct (decide (base <= offset
                    /\ offset = base + Z.of_nat (Z.to_nat ((offset - base) / 4)) * 4
                    /\ (Z.to_nat ((offset - base) / 4) < n)%nat)) as [H|H].
  - left. exists (Z.to_nat ((offset - base) / 4)). split; apply H.
  - right. intros i Hi Heq. apply H. subst offset.
    replace (base + Z.of_nat i * 4 - base) with (Z.of_nat i * 4) by lia.
    rewrite Z.div_mul, Nat2Z.id by lia. lia.
Qed.

Lemma store_words_covered base a b w :
  (length a <= length b)%nat ->
  store_words base b (store_words base a w) = store_words base b w.
Proof.
  intros Hab. apply map_eq. intros offset. unfold store_words.
  destruct (word_of_region base (length b) offset) as [(i & Hi & ->)|Hout].
  - rewrite !lookup_store_upto_lt by exact Hi. reflexivity.
  - rewrite !lookup_store_upto_ne; try exact Hout; [reflexivity|].
    intros i Hi. apply Hout. lia.
Qed.

Lemma writes_app j1 j2 : writes (j1 ++ j2) = writes j1 ++ writes j2.
Proof. apply omap_app. Qed.

Lemma writes_to_app offset j1 j2 :
  writes_to offset (j1 ++ j2) = writes_to offset j1 ++ writes_to offset j2.
Proof. unfold writes_to. rewrite writes_app, filter_app, fmap_app. reflexivity. Qed.

Lemma writes_to_cons_Wr offset o d j :
  writes_to offset (Wr o d :: j)
  = if decide (o = offset) then d :: writes_to offset j else writes_to offset j.
Proof.
  unfold writes_to. change (writes (Wr o d :: j)) with ((o, d) :: writes j).
  rewrite filter_cons. cbn [fst]. destruct (decide (o = offset)); reflexivity.
Qed.

Lemma writes_to_cons_Rd offset o v j :
  writes_to offset (Rd o v :: j) = writes_to offset j.
Proof. reflexivity. Qed.

Lemma writes_polls device c k : writes (polls device c k) = [].
Proof.
  unfold polls. generalize (seq 0 k) as xs.
  induction xs as [|x xs IH]; [reflexivity|]. cbn. exact IH.
Qed.

Lemma writes_drains device c n : writes (drains device c n) = [].
Proof.
  unfold drains. generalize (seq 0 n) as xs.
  induction xs as [|x xs IH]; [reflexivity|]. cbn. exact IH.
Qed.

Lemma writes_process_journal device c k n :
  writes (process_journal device c k n) = [(CMD_OFFSET, 1); (ACK_OFFSET, 0)].
Proof.
  unfold process_journal.
  change (Wr CMD_OFFSET 1 :: ?l) with ([Wr CMD_OFFSET 1] ++ l).
  rewrite !writes_app, writes_polls, writes_drains. reflexivity.
Qed.

Lemma reads_polls device c k :
  reads (polls device c k)
  = (fun i => (ACK_OFFSET, device (c + i)%nat ACK_OFFSET)) <$> seq 0 k.
Proof.
  unfold polls. generalize (seq 0 k) as xs.
  induction xs as [|x xs IH]; [reflexivity|]. cbn. f_equal. exact IH.
Qed.

Lemma reads_process_journal_0 device c k :
  reads (process_journal device c k 0)
  = (fun i => (ACK_OFFSET, device (c + i)%nat ACK_OFFSET)) <$> seq 0 (S k).
Proof.
  unfold process_journal.
  change (Wr CMD_OFFSET 1 :: ?l) with ([Wr CMD_OFFSET 1] ++ l).
  unfold reads at 1. rewrite !omap_app. fold (reads (polls device c (S k))).
  rewrite reads_polls. cbn [omap app drains seq fmap list_fmap].
  rewrite app_nil_r. reflexivity.
Qed.

Lemma writes_to_stored_outside base g n offset :
  (forall i, (i < n)%nat -> offset <> base + Z.of_nat i * 4) ->
  writes_to offset (stored base g n) = [].
Proof.
  induction n as [|n IH]; intros Hout; [reflexivity|].
  rewrite stored_S, writes_to_app, IH by (intros i Hi; apply Hout; lia).
  rewrite writes_to_cons_Wr. destruct (decide _) as [Heq|]; [|reflexivity].
  exfalso. apply (Hout n); [lia|]. congruence.
Qed.

Lemma writes_to_stores_outside base data offset :
  (forall i, (i < length data)%nat -> offset <> base + Z.of_nat i * 4) ->
  writes_to offset (stores base data) = [].
Proof. rewrite <- stored_stores. apply writes_to_stored_outside. Qed.

Lemma fetch_words_ext base n w w' :
  (forall i, (i < n)%nat ->
     peek w (base + Z.of_nat i * 4) = peek w' (base + Z.of_nat i * 4)) ->
  fetch_words base n w = fetch_words base n w'.
Proof.
  intros H. unfold fetch_words. apply list_eq. intros i.
  rewrite !list_lookup_fmap.
  destruct (decide (i < n)%nat) as [Hi|Hi].
  - rewrite lookup_seq_lt by exact Hi. cbn. f_equal. apply H, Hi.
  - rewrite lookup_seq_ge by lia. reflexivity.
Qed.

Lemma fetch_store_words base data w :
  fetch_words base (length data) (store_words base data w) = data.
Proof.
  rewrite <- (subscript_seq data) at 3. unfold fetch_words.
  apply list_eq. intros i. rewrite !list_lookup_fmap.
  destruct (decide (i < length data)%nat) as [Hi|Hi].
  - rewrite lookup_seq_lt by exact Hi. cbn. f_equal.
    apply peek_store_words_lt, subscript_lookup, Hi.
  - rewrite lookup_seq_ge by lia. reflexivity.
Qed.

(** ** Whole calls *)

Lemma run_bus_process_ret device self b b' out :
  interp_state (h_bus device) (process self) b ≈ Ret (b', out) ->
  exists k,
    first_ack device (cursor b) k
    /\ b' = {| cursor := (cursor b + S k + array_length self)%nat;
               journal := journal b
                          ++ process_journal device (cursor b) k (array_length self) |}
    /\ out = drained device (cursor b + S k) (array_length self).
Proof.
  intros Hr. destruct (run_bus_process_inv device self b _ Hr) as [k Hk].
  exists k. split; [exact Hk|].
  rewrite (run_bus_process device self b k Hk) in Hr.
  apply eutt_inv_Ret in Hr. injection Hr as <- <-. split; reflexivity.
Qed.

Lemma run_mmio_process_ret self w w' out :
  interp_state h_mmio (process self) w ≈ Ret (w', out) ->
  peek w ACK_OFFSET = 1
  /\ w' = <[ACK_OFFSET := 0]> (<[CMD_OFFSET := 1]> w)
  /\ out = fetch_words OUTPUT_DATA_OFFSET (array_length self) (<[CMD_OFFSET := 1]> w).
Proof.
  intros Hr. destruct (decide (peek w ACK_OFFSET = 1)) as [Hack|Hack].
  - split; [exact Hack|].
    rewrite (run_mmio_process self w Hack) in Hr.
    apply eutt_inv_Ret in Hr. injection Hr as <- <-. split; reflexivity.
  - rewrite (run_mmio_process_spin self w Hack) in Hr.
    exfalso. symmetry in Hr. exact (eutt_Ret_spin_abs _ Hr).
Qed.

Lemma run_bus_load_data_stores device self input_data b :
  interp_state (h_bus device) (load_data self input_data) b
  ≳ Ret ({| cursor := cursor b;
            journal := journal b ++ stores INPUT_DATA_OFFSET input_data |},
         {| array_length := length input_data |}).
Proof. rewrite run_bus_load_data, stored_stores. reflexivity. Qed.

Lemma run_mmio_simulate_accelerator input_data w :
  interp_state h_mmio (simulate_accelerator input_data) w
  ≈ interp_state h_mmio (device_reply ((fun x => x + 1) <$> input_data)) w.
Proof.
  unfold simulate_accelerator, device_reply.
  rewrite !interp_state_bind, !run_mmio_store, !bind_ret_l, length_fmap.
  rewrite (store_upto_ext _ (fun i => subscript input_data i + 1)
             (subscript ((fun x => x + 1) <$> input_data))); [reflexivity|].
  intros i Hi. unfold subscript. rewrite list_lookup_fmap.
  destruct (lookup_lt_is_Some_2 input_data i Hi) as [x ->]. reflexivity.
Qed.

Lemma run_mmio_cycle self data values w :
  interp_state h_mmio
    (acc <- load_data self data;; device_reply values;; process acc) w
  ≈ Ret (<[ACK_OFFSET := 0]>
           (<[CMD_OFFSET := 1]>
              (<[ACK_OFFSET := 1]>
                 (store_words OUTPUT_DATA_OFFSET values
                    (store_words INPUT_DATA_OFFSET data w)))),
         fetch_words OUTPUT_DATA_OFFSET (length data)
           (<[CMD_OFFSET := 1]>
              (<[ACK_OFFSET := 1]>
                 (store_words OUTPUT_DATA_OFFSET values
                    (store_words INPUT_DATA_OFFSET data w))))).
Proof.
  rewrite interp_state_bind, run_mmio_load_data, bind_ret_l. cbn.
  rewrite interp_state_bind, run_mmio_device_reply, bind_ret_l. cbn.
  rewrite run_mmio_process by apply peek_insert_eq. reflexivity.
Qed.

Lemma fetch_reply values w :
  (length values <= 256)%nat ->
  fetch_words OUTPUT_DATA_OFFSET (length values)
    (<[CMD_OFFSET := 1]>
       (<[ACK_OFFSET := 1]> (store_words OUTPUT_DATA_OFFSET values w)))
  = values.
Proof.
  intros Hfit. rewrite <- (fetch_store_words OUTPUT_DATA_OFFSET values w) at 3.
  apply fetch_words_ext. intros i Hi.
  rewrite !peek_insert_ne
    by (unfold CMD_OFFSET, ACK_OFFSET, OUTPUT_DATA_OFFSET; lia).
  reflexivity.
Qed.

Lemma diverges_never_settles {R} (t : itree void1 R) fuel :
  t ≈ ITree.spin -> settles fuel t = None.
Proof.
  intros Hspin. destruct (settles fuel t) as [r|] eqn:Hr; [|reflexivity].
  apply settles_eutt in Hr. rewrite Hr in Hspin.
  exfalso. exact (eutt_Ret_spin_abs _ Hspin).
Qed.

(** The two windows agree: the window only the host touches is the shared
    window whose device shows, at every read, what that window holds once
    the start command is written. *)
Lemma run_bus_process_quiescent self w :
  peek w ACK_OFFSET = 1 ->
  exists b' w' out,
    interp_state (h_bus (fun _ offset => peek (<[CMD_OFFSET := 1]> w) offset))
      (process self) idle_bus ≈ Ret (b', out)
    /\ interp_state h_mmio (process self) w ≈ Ret (w', out).
Proof.
  intros Hack. eexists. eexists. eexists. split.
  - rewrite (run_bus_process _ self idle_bus 0); [reflexivity|].
    split; [|intros i Hi; lia].
    rewrite peek_insert_ne by (unfold CMD_OFFSET, ACK_OFFSET; lia). exact Hack.
  - rewrite (run_mmio_process self w Hack). reflexivity.
Qed.

(** * The specification, claim by claim *)

(** C1, as stated, fails for a long input: with 257 words the last output word
    lies on the command offset, which [process] itself overwrites with [0x1]
    before reading it back, so element 256 of the result is [1] and not the
    [0] the device wrote. *)
Lemma roundtrip_clobbered_past_256 :
  exists w' out,
    interp_state h_mmio
      (acc <- load_data {| array_length := 0 |} (replicate 257 0);;
       device_reply (replicate 257 0);;
       process acc) ∅
      ≈ Ret (w', out)
    /\ out !! 256%nat = Some 1
    /\ out <> replicate 257 0.
Proof.
  eexists. eexists. split; [|split].
  - apply run_mmio_cycle.
  - vm_compute. reflexivity.
  - intros Heq. apply (f_equal (fun l : list Z => l !! 256%nat)) in Heq.
    vm_compute in Heq. discriminate.
Qed.

(** C1, amended: for every input of [n <= 256] words, [load_data], then the
    device writing a word to each [output_offset + i * 4], [i < n], and [1]
    to the acknowledge offset, then [process], returns exactly the [n] words
    the device wrote, in index order.  In particular the notebook run, with
    the reference offsets, input [0..9] and the device writing
    [input[i] + 1], returns [1..10], whatever the window held before. *)
Theorem load_reply_process_roundtrip (self : my_new_accelerator)
    (data values : list Z) (w : gmap Z Z) :
  length values = length data ->
  (length data <= 256)%nat ->
  (exists w',
     interp_state h_mmio
       (acc <- load_data self data;; device_reply values;; process acc) w
     ≈ Ret (w', values))
  /\ (INPUT_DATA_OFFSET = 0x0 /\ OUTPUT_DATA_OFFSET = 0x400
      /\ CMD_OFFSET = 0x800 /\ ACK_OFFSET = 0x804)
  /\ forall w0, exists w',
       interp_state h_mmio notebook w0 ≈ Ret (w', [1; 2; 3; 4; 5; 6; 7; 8; 9; 10]).
Proof.
  intros Hlen Hfit. split; [|split].
  - eexists. rewrite run_mmio_cycle, <- Hlen, fetch_reply by lia. reflexivity.
  - repeat split.
  - intros w0. eexists. unfold notebook.
    rewrite interp_state_bind, run_mmio_init, bind_ret_l. cbn [fst snd].
    rewrite interp_state_bind, run_mmio_load_data, bind_ret_l. cbn [fst snd].
    rewrite interp_state_bind, run_mmio_simulate_accelerator,
      run_mmio_device_reply, bind_ret_l. cbn [fst snd].
    rewrite run_mmio_process by apply peek_insert_eq.
    cbn [array_length].
    change (length (Z.of_nat <$> seq 0 10))
      with (length ((fun x => x + 1) <$> (Z.of_nat <$> seq 0 10))).
    rewrite fetch_reply by (cbn; lia).
    reflexivity.
Qed.

Lemma load_reply_process_roundtrip_witness :
  (exists w',
     interp_state h_mmio
       (acc <- load_data {| array_length := 0 |} [7; 8];;
        device_reply [70; 80];;
        process acc) acked_window
     ≈ Ret (w', [70; 80]))
  /\ (INPUT_DATA_OFFSET = 0x0 /\ OUTPUT_DATA_OFFSET = 0x400
      /\ CMD_OFFSET = 0x800 /\ ACK_OFFSET = 0x804)
  /\ forall w0, exists w',
       interp_state h_mmio notebook w0 ≈ Ret (w', [1; 2; 3; 4; 5; 6; 7; 8; 9; 10]).
Proof.
  apply (load_reply_process_roundtrip {| array_length := 0 |} [7; 8] [70; 80]
           acked_window).
  - reflexivity.
  - cbn. lia.
Defined.

(** C2: whenever [process] returns, the last word it wrote to the acknowledge
    offset is [0] (on a window shared with any device, for every stored
    [array_length]: the write is the last access of the call), and on a
    window only the host touches the acknowledge register reads [0] right
    after the call. *)
Theorem process_resets_ack (self : my_new_accelerator)
    (device : nat -> Z -> Z) (b b' : bus) (out : list Z)
    (w w' : gmap Z Z) (out' : list Z) :
  interp_state (h_bus device) (process self) b ≈ Ret (b', out) ->
  interp_state h_mmio (process self) w ≈ Ret (w', out') ->
  (exists j, journal b' = journal b ++ j
             /\ last j = Some (Wr ACK_OFFSET 0x0)
             /\ last_write ACK_OFFSET j = Some 0x0)
  /\ peek w' ACK_OFFSET = 0x0.
Proof.
  intros Hbus Hmmio. split.
  - destruct (run_bus_process_ret _ _ _ _ _ Hbus) as (k & _ & -> & _).
    eexists. split; [reflexivity|]. split.
    + unfold process_journal. rewrite app_comm_cons, !app_assoc. apply last_snoc.
    + unfold last_write, writes_to. rewrite writes_process_journal. reflexivity.
  - destruct (run_mmio_process_ret _ _ _ _ Hmmio) as (_ & -> & _).
    apply peek_insert_eq.
Qed.

Lemma process_resets_ack_witness :
  (exists j,
     [Wr CMD_OFFSET 1; Rd ACK_OFFSET 0; Rd ACK_OFFSET 0; Rd ACK_OFFSET 1;
      Rd 0x400 0; Rd 0x404 0; Wr ACK_OFFSET 0]
     = journal idle_bus ++ j
     /\ last j = Some (Wr ACK_OFFSET 0x0)
     /\ last_write ACK_OFFSET j = Some 0x0)
  /\ peek (<[ACK_OFFSET := 0]> (<[CMD_OFFSET := 1]> acked_window)) ACK_OFFSET = 0x0.
Proof.
  apply (process_resets_ack {| array_length := 2 |} late_device
           idle_bus
           {| cursor := 5;
              journal := [Wr CMD_OFFSET 1; Rd ACK_OFFSET 0; Rd ACK_OFFSET 0;
                          Rd ACK_OFFSET 1; Rd 0x400 0; Rd 0x404 0;
                          Wr ACK_OFFSET 0] |}
           [0; 0]
           acked_window
           (<[ACK_OFFSET := 0]> (<[CMD_OFFSET := 1]> acked_window))
           [0; 0]).
  - apply (settles_eutt 20). vm_compute. reflexivity.
  - apply (settles_eutt 20). vm_compute. reflexivity.
Defined.

(** C3: [process] writes [0x1] to the command offset and then polls the
    acknowledge offset with no bound.  On a window shared with any device: as
    long as the first [n] polls do not read [1], the run has made exactly the
    command write and those [n] polls and is still waiting; the call returns
    if and only if some poll reads [1]; if no read ever finds [1] in the
    acknowledge register the call never returns, and a call has no other
    outcome (such as a timeout error): it returns a list or runs forever.  On
    a window only the host touches, the call never returns when the
    acknowledge register does not hold [1]. *)
Theorem process_blocks_until_ack (self : my_new_accelerator)
    (device : nat -> Z -> Z) (b : bus) (w : gmap Z Z) :
  (forall n,
     (forall i, (i < n)%nat -> device (cursor b + i)%nat ACK_OFFSET <> 1) ->
     interp_state (h_bus device) (process self) b
     ≈ interp_state (h_bus device) (await_and_drain self)
         {| cursor := (cursor b + n)%nat;
            journal := journal b ++ Wr CMD_OFFSET 0x1 :: polls device (cursor b) n |})
  /\ ((exists r, interp_state (h_bus device) (process self) b ≈ Ret r)
      <-> exists k, first_ack device (cursor b) k)
  /\ ((forall k, device (cursor b + k)%nat ACK_OFFSET <> 1) ->
      interp_state (h_bus device) (process self) b ≈ ITree.spin)
  /\ (peek w ACK_OFFSET <> 1 ->
      interp_state h_mmio (process self) w ≈ ITree.spin).
Proof.
  split; [|split; [|split]].
  - intros n Hn. rewrite (run_bus_process_prefix device self b n Hn). reflexivity.
  - split.
    + intros [r Hr]. exact (run_bus_process_inv device self b r Hr).
    + intros [k Hk]. eexists.
      rewrite (run_bus_process device self b k Hk). reflexivity.
  - apply run_bus_process_spin.
  - apply run_mmio_process_spin.
Qed.

(** C4, as stated, fails when the second input is shorter than the first: the
    words of the first input beyond the length of the second stay in the input
    region, so the window differs from the one a single load leaves. *)
Lemma second_load_keeps_stale_words :
  exists w2 w1,
    interp_state h_mmio
      (acc <- load_data {| array_length := 0 |} [7; 8];; load_data acc [1]) ∅
      ≈ Ret (w2, {| array_length := 1 |})
    /\ interp_state h_mmio (load_data {| array_length := 0 |} [1]) ∅
       ≈ Ret (w1, {| array_length := 1 |})
    /\ peek w2 (INPUT_DATA_OFFSET + 4) = 8
    /\ peek w1 (INPUT_DATA_OFFSET + 4) = 0
    /\ w2 <> w1.
Proof.
  exists (store_words INPUT_DATA_OFFSET [1] (store_words INPUT_DATA_OFFSET [7; 8] ∅)).
  exists (store_words INPUT_DATA_OFFSET [1] ∅).
  split; [|split; [|split; [|split]]].
  - rewrite interp_state_bind, run_mmio_load_data, bind_ret_l. cbn.
    rewrite run_mmio_load_data. reflexivity.
  - rewrite run_mmio_load_data. reflexivity.
  - reflexivity.
  - reflexivity.
  - intros Heq. apply (f_equal (fun w => peek w (INPUT_DATA_OFFSET + 4))) in Heq.
    vm_compute in Heq. discriminate.
Qed.

(** C4, amended: after [load_data(a)] then [load_data(b)] the stored
    [array_length] is the length of [b] and the input words below that length
    hold [b]; the input words from the length of [b] up to the length of [a]
    still hold [a]; and when [a] is not longer than [b] the object and the
    window are the same as after [load_data(b)] alone. *)
Theorem load_data_twice (self : my_new_accelerator) (a b : list Z)
    (w : gmap Z Z) :
  exists w2,
    interp_state h_mmio (acc <- load_data self a;; load_data acc b) w
      ≈ Ret (w2, {| array_length := length b |})
    /\ (forall i d, b !! i = Some d ->
          peek w2 (INPUT_DATA_OFFSET + Z.of_nat i * 4) = d)
    /\ (forall i d, (length b <= i)%nat -> a !! i = Some d ->
          peek w2 (INPUT_DATA_OFFSET + Z.of_nat i * 4) = d)
    /\ ((length a <= length b)%nat ->
        interp_state h_mmio (load_data self b) w
        ≈ Ret (w2, {| array_length := length b |})).
Proof.
  exists (store_words INPUT_DATA_OFFSET b (store_words INPUT_DATA_OFFSET a w)).
  split; [|split; [|split]].
  - rewrite interp_state_bind, run_mmio_load_data, bind_ret_l. cbn.
    rewrite run_mmio_load_data. reflexivity.
  - intros i d Hd. apply peek_store_words_lt, Hd.
  - intros i d Hi Hd. rewrite peek_store_words_ne by (intros; lia).
    apply peek_store_words_lt, Hd.
  - intros Hab. rewrite run_mmio_load_data, store_words_covered by exact Hab.
    reflexivity.
Qed.

(** C5: [load_data] checks no bound.  For every input, on a window shared with
    any device, it writes [data[i]] to byte offset [0x0 + i * 4] for each index
    in turn and nothing else, and returns.  So element 256 of an input that
    has one is written to [0x400], the first output word, and element 512 to
    [0x800], the command offset; on a window only the host touches, these
    registers hold those elements afterwards. *)
Theorem load_data_unchecked (self : my_new_accelerator) (data : list Z)
    (device : nat -> Z -> Z) (b : bus) (w : gmap Z Z) :
  interp_state (h_bus device) (load_data self data) b
    ≈ Ret ({| cursor := cursor b;
              journal := journal b ++ stores INPUT_DATA_OFFSET data |},
           {| array_length := length data |})
  /\ length (stores INPUT_DATA_OFFSET data) = length data
  /\ (forall i d, data !! i = Some d ->
        stores INPUT_DATA_OFFSET data !! i = Some (Wr (0x0 + Z.of_nat i * 4) d))
  /\ (forall d, data !! 256%nat = Some d ->
        stores INPUT_DATA_OFFSET data !! 256%nat = Some (Wr OUTPUT_DATA_OFFSET d))
  /\ (forall d, data !! 512%nat = Some d ->
        stores INPUT_DATA_OFFSET data !! 512%nat = Some (Wr CMD_OFFSET d))
  /\ exists w',
       interp_state h_mmio (load_data self data) w
         ≈ Ret (w', {| array_length := length data |})
       /\ (forall d, data !! 256%nat = Some d -> peek w' OUTPUT_DATA_OFFSET = d)
       /\ (forall d, data !! 512%nat = Some d -> peek w' CMD_OFFSET = d).
Proof.
  split; [|split; [|split; [|split; [|split]]]].
  - rewrite run_bus_load_data_stores. reflexivity.
  - apply length_stores.
  - intros i d Hd. apply (lookup_stores INPUT_DATA_OFFSET data i d Hd).
  - intros d Hd. apply (lookup_stores INPUT_DATA_OFFSET data 256 d Hd).
  - intros d Hd. apply (lookup_stores INPUT_DATA_OFFSET data 512 d Hd).
  - eexists. split; [|split].
    + rewrite run_mmio_load_data. reflexivity.
    + intros d Hd. apply (peek_store_words_lt INPUT_DATA_OFFSET data w 256 d Hd).
    + intros d Hd. apply (peek_store_words_lt INPUT_DATA_OFFSET data w 512 d Hd).
Qed.

(** C6: construction writes [0x0] (IDLE) to the command offset and makes no
    other register access: on any window shared with any device the journal
    grows by exactly that write, and on a window only the host touches the
    command register reads [0x0] afterwards whatever the window held before,
    every other word being left as it was. *)
Theorem init_writes_idle (device : nat -> Z -> Z) (b : bus) (w : gmap Z Z) :
  interp_state (h_bus device) __init__ b
    ≈ Ret ({| cursor := cursor b; journal := journal b ++ [Wr CMD_OFFSET 0x0] |},
           {| array_length := 0 |})
  /\ exists w',
       interp_state h_mmio __init__ w ≈ Ret (w', {| array_length := 0 |})
       /\ peek w' CMD_OFFSET = 0x0
       /\ forall offset, offset <> CMD_OFFSET -> peek w' offset = peek w offset.
Proof.
  split.
  - rewrite run_bus_init. reflexivity.
  - exists (<[CMD_OFFSET := 0]> w). split; [|split].
    + rewrite run_mmio_init. reflexivity.
    + apply peek_insert_eq.
    + intros offset Hne. apply peek_insert_ne. congruence.
Qed.

(** C7: when the stored [array_length] is [0] and the acknowledge register
    already reads [1], [process] returns the empty sequence: for an object
    whose [array_length] is [0], for an object fresh from construction, and
    after [load_data] of the empty sequence.  The call returns normally. *)
Theorem process_of_nothing_returns_nothing (w : gmap Z Z) :
  peek w ACK_OFFSET = 1 ->
  (forall self, array_length self = 0%nat ->
     interp_state h_mmio (process self) w
     ≈ Ret (<[ACK_OFFSET := 0]> (<[CMD_OFFSET := 1]> w), []))
  /\ interp_state h_mmio (acc <- __init__;; process acc) w
     ≈ Ret (<[ACK_OFFSET := 0]> (<[CMD_OFFSET := 1]> (<[CMD_OFFSET := 0]> w)), [])
  /\ (forall self,
        interp_state h_mmio (acc <- load_data self [];; process acc) w
        ≈ Ret (<[ACK_OFFSET := 0]> (<[CMD_OFFSET := 1]> w), [])).
Proof.
  intros Hack. split; [|split].
  - intros self Hlen. rewrite (run_mmio_process self w Hack), Hlen. reflexivity.
  - rewrite interp_state_bind, run_mmio_init, bind_ret_l. cbn.
    rewrite run_mmio_process; [reflexivity|].
    rewrite peek_insert_ne by (unfold ACK_OFFSET, CMD_OFFSET; lia). exact Hack.
  - intros self.
    rewrite interp_state_bind, run_mmio_load_data, bind_ret_l. cbn.
    rewrite run_mmio_process; [reflexivity|]. exact Hack.
Qed.

Lemma process_of_nothing_returns_nothing_witness :
  (forall self, array_length self = 0%nat ->
     interp_state h_mmio (process self) acked_window
     ≈ Ret (<[ACK_OFFSET := 0]> (<[CMD_OFFSET := 1]> acked_window), []))
  /\ interp_state h_mmio (acc <- __init__;; process acc) acked_window
     ≈ Ret (<[ACK_OFFSET := 0]>
              (<[CMD_OFFSET := 1]> (<[CMD_OFFSET := 0]> acked_window)), [])
  /\ (forall self,
        interp_state h_mmio (acc <- load_data self [];; process acc) acked_window
        ≈ Ret (<[ACK_OFFSET := 0]> (<[CMD_OFFSET := 1]> acked_window), [])).
Proof.
  apply (process_of_nothing_returns_nothing acked_window). reflexivity.
Defined.

(** C8, as stated, fails for a long input: loading 257 words changes the first
    word of the output region. *)
Lemma load_data_reaches_output_region :
  exists w',
    interp_state h_mmio (load_data {| array_length := 0 |} (replicate 257 7)) ∅
      ≈ Ret (w', {| array_length := 257 |})
    /\ peek w' OUTPUT_DATA_OFFSET <> peek ∅ OUTPUT_DATA_OFFSET.
Proof.
  eexists. split.
  - rewrite run_mmio_load_data. reflexivity.
  - rewrite (peek_store_words_lt INPUT_DATA_OFFSET (replicate 257 7) ∅ 256 7)
      by reflexivity.
    discriminate.
Qed.

(** C8, amended: for every input, [load_data] writes [data[i]] to
    [input_offset + i * 4] for each index in increasing order and makes no
    other access, sets [array_length] to the length of the input, and leaves
    every word it does not write as it was.  So it leaves the output region
    (every word from [0x400] on) unchanged for an input of at most 256 words,
    it writes nothing to the command offset and leaves the command register
    unchanged for an input of at most 512 words, and it writes nothing to the
    acknowledge offset and leaves the acknowledge register unchanged for an
    input of at most 513 words. *)
Theorem load_data_frame (self : my_new_accelerator) (data : list Z)
    (device : nat -> Z -> Z) (b : bus) (w : gmap Z Z) :
  interp_state (h_bus device) (load_data self data) b
    ≈ Ret ({| cursor := cursor b;
              journal := journal b ++ stores INPUT_DATA_OFFSET data |},
           {| array_length := length data |})
  /\ (forall i d, data !! i = Some d ->
        stores INPUT_DATA_OFFSET data !! i
        = Some (Wr (INPUT_DATA_OFFSET + Z.of_nat i * 4) d))
  /\ length (stores INPUT_DATA_OFFSET data) = length data
  /\ ((length data <= 512)%nat ->
      writes_to CMD_OFFSET (stores INPUT_DATA_OFFSET data) = [])
  /\ ((length data <= 513)%nat ->
      writes_to ACK_OFFSET (stores INPUT_DATA_OFFSET data) = [])
  /\ exists w',
       interp_state h_mmio (load_data self data) w
         ≈ Ret (w', {| array_length := length data |})
       /\ (forall i d, data !! i = Some d ->
             peek w' (INPUT_DATA_OFFSET + Z.of_nat i * 4) = d)
       /\ (forall offset,
             (forall i, (i < length data)%nat ->
                offset <> INPUT_DATA_OFFSET + Z.of_nat i * 4) ->
             peek w' offset = peek w offset)
       /\ ((length data <= 256)%nat ->
           forall offset, OUTPUT_DATA_OFFSET <= offset ->
             peek w' offset = peek w offset)
       /\ ((length data <= 512)%nat -> peek w' CMD_OFFSET = peek w CMD_OFFSET)
       /\ ((length data <= 513)%nat -> peek w' ACK_OFFSET = peek w ACK_OFFSET).
Proof.
  split; [|split; [|split; [|split; [|split]]]].
  - rewrite run_bus_load_data_stores. reflexivity.
  - intros i d Hd. apply (lookup_stores INPUT_DATA_OFFSET data i d Hd).
  - apply length_stores.
  - intros Hfit. apply writes_to_stores_outside. intros i Hi.
    unfold CMD_OFFSET, INPUT_DATA_OFFSET. lia.
  - intros Hfit. apply writes_to_stores_outside. intros i Hi.
    unfold ACK_OFFSET, INPUT_DATA_OFFSET. lia.
  - eexists. split; [|split; [|split; [|split; [|split]]]].
    + rewrite run_mmio_load_data. reflexivity.
    + intros i d Hd. apply peek_store_words_lt, Hd.
    + intros offset Hout. apply peek_store_words_ne, Hout.
    + intros Hfit offset Hoff. apply peek_store_words_ne. intros i Hi.
      unfold OUTPUT_DATA_OFFSET, INPUT_DATA_OFFSET in *. lia.
    + intros Hfit. apply peek_store_words_ne. intros i Hi.
      unfold CMD_OFFSET, INPUT_DATA_OFFSET. lia.
    + intros Hfit. apply peek_store_words_ne. intros i Hi.
      unfold ACK_OFFSET, INPUT_DATA_OFFSET. lia.
Qed.

Lemma load_data_frame_witness :
  interp_state (h_bus late_device) (load_data {| array_length := 0 |} [7; 8]) idle_bus
    ≈ Ret ({| cursor := cursor idle_bus;
              journal := journal idle_bus ++ stores INPUT_DATA_OFFSET [7; 8] |},
           {| array_length := length [7; 8] |})
  /\ (forall i d, [7; 8] !! i = Some d ->
        stores INPUT_DATA_OFFSET [7; 8] !! i
        = Some (Wr (INPUT_DATA_OFFSET + Z.of_nat i * 4) d))
  /\ length (stores INPUT_DATA_OFFSET [7; 8]) = length [7; 8]
  /\ ((length [7; 8] <= 512)%nat ->
      writes_to CMD_OFFSET (stores INPUT_DATA_OFFSET [7; 8]) = [])
  /\ ((length [7; 8] <= 513)%nat ->
      writes_to ACK_OFFSET (stores INPUT_DATA_OFFSET [7; 8]) = [])
  /\ exists w',
       interp_state h_mmio (load_data {| array_length := 0 |} [7; 8]) acked_window
         ≈ Ret (w', {| array_length := length [7; 8] |})
       /\ (forall i d, [7; 8] !! i = Some d ->
             peek w' (INPUT_DATA_OFFSET + Z.of_nat i * 4) = d)
       /\ (forall offset,
             (forall i, (i < length [7; 8])%nat ->
                offset <> INPUT_DATA_OFFSET + Z.of_nat i * 4) ->
             peek w' offset = peek acked_window offset)
       /\ ((length [7; 8] <= 256)%nat ->
           forall offset, OUTPUT_DATA_OFFSET <= offset ->
             peek w' offset = peek acked_window offset)
       /\ ((length [7; 8] <= 512)%nat ->
           peek w' CMD_OFFSET = peek acked_window CMD_OFFSET)
       /\ ((length [7; 8] <= 513)%nat ->
           peek w' ACK_OFFSET = peek acked_window ACK_OFFSET).
Proof.
  apply (load_data_frame {| array_length := 0 |} [7; 8] late_device idle_bus
           acked_window).
Defined.

(** C9, as stated, fails in one part: construction is not the only operation
    that can write [0x0] to the command offset.  [load_data] of 513 zeros
    writes element 512, a [0], to [0x800]. *)
Lemma load_data_can_write_idle :
  exists b',
    interp_state (h_bus late_device)
      (load_data {| array_length := 0 |} (replicate 513 0)) idle_bus
      ≈ Ret (b', {| array_length := 513 |})
    /\ journal b' !! 512%nat = Some (Wr CMD_OFFSET 0x0)
    /\ last_write CMD_OFFSET (journal b') = Some 0x0.
Proof.
  eexists. split; [|split].
  - rewrite run_bus_load_data_stores. reflexivity.
  - vm_compute. reflexivity.
  - vm_compute. reflexivity.
Qed.

(** C9, amended: after [process] returns the command register holds [0x1]
    (PROCESS), not IDLE: the only word [process] writes to the command offset
    is [0x1]; construction writes [0x0] there; [load_data] of at most 512
    words writes nothing there (a longer input puts its element 512 there);
    so after every load, reply, process cycle that returns, the command
    register reads [0x1]. *)
Theorem process_leaves_command_raised (self : my_new_accelerator)
    (device : nat -> Z -> Z) (b b' : bus) (out : list Z)
    (w w' : gmap Z Z) (out' : list Z) :
  interp_state (h_bus device) (process self) b ≈ Ret (b', out) ->
  interp_state h_mmio (process self) w ≈ Ret (w', out') ->
  peek w' CMD_OFFSET = 0x1
  /\ (exists j, journal b' = journal b ++ j /\ writes_to CMD_OFFSET j = [0x1])
  /\ (forall b0,
        interp_state (h_bus device) __init__ b0
        ≈ Ret ({| cursor := cursor b0; journal := journal b0 ++ [Wr CMD_OFFSET 0x0] |},
               {| array_length := 0 |}))
  /\ (forall acc data b0, (length data <= 512)%nat ->
        exists j,
          interp_state (h_bus device) (load_data acc data) b0
          ≈ Ret ({| cursor := cursor b0; journal := journal b0 ++ j |},
                 {| array_length := length data |})
          /\ writes_to CMD_OFFSET j = [])
  /\ (forall acc data values w0 w1 out1,
        interp_state h_mmio
          (acc' <- load_data acc data;; device_reply values;; process acc') w0
        ≈ Ret (w1, out1) ->
        peek w1 CMD_OFFSET = 0x1).
Proof.
  intros Hbus Hmmio.
  assert (Hcmd : forall w0 : gmap Z Z,
            peek (<[ACK_OFFSET := 0]> (<[CMD_OFFSET := 1]> w0)) CMD_OFFSET = 1).
  { intros w0. rewrite peek_insert_ne by (unfold ACK_OFFSET, CMD_OFFSET; lia).
    apply peek_insert_eq. }
  split; [|split; [|split; [|split]]].
  - destruct (run_mmio_process_ret _ _ _ _ Hmmio) as (_ & -> & _). apply Hcmd.
  - destruct (run_bus_process_ret _ _ _ _ _ Hbus) as (k & _ & -> & _).
    eexists. split; [reflexivity|].
    unfold writes_to. rewrite writes_process_journal. reflexivity.
  - intros b0. rewrite run_bus_init. reflexivity.
  - intros acc data b0 Hfit. eexists. split.
    + rewrite run_bus_load_data_stores. reflexivity.
    + apply writes_to_stores_outside. intros i Hi.
      unfold CMD_OFFSET, INPUT_DATA_OFFSET. lia.
  - intros acc data values w0 w1 out1 Hrun.
    rewrite run_mmio_cycle in Hrun. apply eutt_inv_Ret in Hrun.
    injection Hrun as <- _. apply Hcmd.
Qed.

Lemma process_leaves_command_raised_witness :
  peek (<[ACK_OFFSET := 0]> (<[CMD_OFFSET := 1]> acked_window)) CMD_OFFSET = 0x1
  /\ (exists j,
        [Wr CMD_OFFSET 1; Rd ACK_OFFSET 0; Rd ACK_OFFSET 0; Rd ACK_OFFSET 1;
         Rd 0x400 0; Rd 0x404 0; Wr ACK_OFFSET 0]
        = journal idle_bus ++ j
        /\ writes_to CMD_OFFSET j = [0x1])
  /\ (forall b0,
        interp_state (h_bus late_device) __init__ b0
        ≈ Ret ({| cursor := cursor b0; journal := journal b0 ++ [Wr CMD_OFFSET 0x0] |},
               {| array_length := 0 |}))
  /\ (forall acc data b0, (length data <= 512)%nat ->
        exists j,
          interp_state (h_bus late_device) (load_data acc data) b0
          ≈ Ret ({| cursor := cursor b0; journal := journal b0 ++ j |},
                 {| array_length := length data |})
          /\ writes_to CMD_OFFSET j = [])
  /\ (forall acc data values w0 w1 out1,
        interp_state h_mmio
          (acc' <- load_data acc data;; device_reply values;; process acc') w0
        ≈ Ret (w1, out1) ->
        peek w1 CMD_OFFSET = 0x1).
Proof.
  apply (process_leaves_command_raised {| array_length := 2 |} late_device
           idle_bus
           {| cursor := 5;
              journal := [Wr CMD_OFFSET 1; Rd ACK_OFFSET 0; Rd ACK_OFFSET 0;
                          Rd ACK_OFFSET 1; Rd 0x400 0; Rd 0x404 0;
                          Wr ACK_OFFSET 0] |}
           [0; 0]
           acked_window
           (<[ACK_OFFSET := 0]> (<[CMD_OFFSET := 1]> acked_window))
           [0; 0]).
  - apply (settles_eutt 20). vm_compute. reflexivity.
  - apply (settles_eutt 20). vm_compute. reflexivity.
Defined.

(** C10: with a stored [array_length] of [0], [process] still has effects.
    On a window shared with any device, if poll number [k] is the first to
    read [1], the call makes exactly these accesses: the write of [0x1] to the
    command offset, the [k + 1] polls of the acknowledge offset, the write of
    [0x0] to the acknowledge offset; every read is a poll of the acknowledge
    offset (no output word is read), and the result is the empty sequence.
    If no poll ever reads [1] the call never returns.  On a window only the
    host touches the command register reads [0x1] and the acknowledge
    register [0x0] afterwards. *)
Theorem process_of_nothing_still_handshakes (self : my_new_accelerator)
    (device : nat -> Z -> Z) (b : bus) (k : nat) (w : gmap Z Z) :
  array_length self = 0%nat ->
  first_ack device (cursor b) k ->
  peek w ACK_OFFSET = 1 ->
  interp_state (h_bus device) (process self) b
    ≈ Ret ({| cursor := (cursor b + S k)%nat;
              journal := journal b
                         ++ Wr CMD_OFFSET 0x1
                            :: polls device (cursor b) (S k) ++ [Wr ACK_OFFSET 0x0] |},
           [])
  /\ reads (Wr CMD_OFFSET 0x1 :: polls device (cursor b) (S k) ++ [Wr ACK_OFFSET 0x0])
     = (fun i => (ACK_OFFSET, device (cursor b + i)%nat ACK_OFFSET)) <$> seq 0 (S k)
  /\ (forall device' : nat -> Z -> Z,
        (forall i, device' (cursor b + i)%nat ACK_OFFSET <> 1) ->
        interp_state (h_bus device') (process self) b ≈ ITree.spin)
  /\ exists w',
       interp_state h_mmio (process self) w ≈ Ret (w', [])
       /\ peek w' CMD_OFFSET = 0x1 /\ peek w' ACK_OFFSET = 0x0.
Proof.
  intros Hlen Hk Hack. split; [|split; [|split]].
  - rewrite (run_bus_process device self b k Hk), Hlen.
    unfold process_journal, drains, drained. cbn [seq fmap list_fmap app].
    rewrite Nat.add_0_r. reflexivity.
  - apply (reads_process_journal_0 device (cursor b) k).
  - intros device' Hnever. apply run_bus_process_spin. exact Hnever.
  - eexists. split; [|split].
    + rewrite (run_mmio_process self w Hack), Hlen. reflexivity.
    + rewrite peek_insert_ne by (unfold ACK_OFFSET, CMD_OFFSET; lia).
      apply peek_insert_eq.
    + apply peek_insert_eq.
Qed.

Lemma process_of_nothing_still_handshakes_witness :
  interp_state (h_bus late_device) (process {| array_length := 0 |}) idle_bus
    ≈ Ret ({| cursor := (cursor idle_bus + 3)%nat;
              journal := journal idle_bus
                         ++ Wr CMD_OFFSET 0x1
                            :: polls late_device (cursor idle_bus) 3
                            ++ [Wr ACK_OFFSET 0x0] |},
           [])
  /\ reads (Wr CMD_OFFSET 0x1
              :: polls late_device (cursor idle_bus) 3 ++ [Wr ACK_OFFSET 0x0])
     = (fun i => (ACK_OFFSET, late_device (cursor idle_bus + i)%nat ACK_OFFSET))
         <$> seq 0 3
  /\ (forall device' : nat -> Z -> Z,
        (forall i, device' (cursor idle_bus + i)%nat ACK_OFFSET <> 1) ->
        interp_state (h_bus device') (process {| array_length := 0 |}) idle_bus
        ≈ ITree.spin)
  /\ exists w',
       interp_state h_mmio (process {| array_length := 0 |}) acked_window
       ≈ Ret (w', [])
       /\ peek w' CMD_OFFSET = 0x1 /\ peek w' ACK_OFFSET = 0x0.
Proof.
  apply (process_of_nothing_still_handshakes {| array_length := 0 |}
           late_device idle_bus 2 acked_window).
  - reflexivity.
  - split; [reflexivity|]. intros i Hi. unfold late_device.
    destruct (decide ((cursor idle_bus + i)%nat = 2%nat)) as [Heq|];
      [cbn in Heq; lia|discriminate].
  - reflexivity.
Defined.

(** * Further properties of the class *)

(** X1: [process] touches only the two handshake registers.  Whenever it
    returns on a window only the host touches, every word other than the
    command and the acknowledge register is as it was before the call: the
    input and the output words stay in place. *)
Theorem process_keeps_data_words (self : my_new_accelerator)
    (w w' : gmap Z Z) (out : list Z) (offset : Z) :
  interp_state h_mmio (process self) w ≈ Ret (w', out) ->
  offset <> CMD_OFFSET -> offset <> ACK_OFFSET ->
  peek w' offset = peek w offset.
Proof.
  intros Hrun Hcmd Hack.
  destruct (run_mmio_process_ret _ _ _ _ Hrun) as (_ & -> & _).
  rewrite !peek_insert_ne by congruence. reflexivity.
Qed.

Lemma process_keeps_data_words_witness :
  peek (<[ACK_OFFSET := 0]>
          (<[CMD_OFFSET := 1]> (<[OUTPUT_DATA_OFFSET := 5]> acked_window)))
       OUTPUT_DATA_OFFSET
  = peek (<[OUTPUT_DATA_OFFSET := 5]> acked_window) OUTPUT_DATA_OFFSET.
Proof.
  apply (process_keeps_data_words {| array_length := 2 |}
           (<[OUTPUT_DATA_OFFSET := 5]> acked_window)
           (<[ACK_OFFSET := 0]>
              (<[CMD_OFFSET := 1]> (<[OUTPUT_DATA_OFFSET := 5]> acked_window)))
           [5; 0] OUTPUT_DATA_OFFSET).
  - apply (settles_eutt 20). vm_compute. reflexivity.
  - discriminate.
  - discriminate.
Defined.

(** X2: the accesses of a [process] call that returns, on a window shared
    with any device, are in this order: the write of [0x1] to the command
    offset; polls of the acknowledge offset, of which the last and only the
    last reads [1]; one read per output word, at increasing offsets; the
    write of [0x0] to the acknowledge offset.  No output word is read before
    the acknowledge was seen, the two writes are the only ones, and the
    result is the list of the words read back, [array_length] of them. *)
Theorem process_accesses_in_order (self : my_new_accelerator)
    (device : nat -> Z -> Z) (b b' : bus) (out : list Z) :
  interp_state (h_bus device) (process self) b ≈ Ret (b', out) ->
  exists k,
    first_ack device (cursor b) k
    /\ journal b'
       = journal b
         ++ Wr CMD_OFFSET 0x1
            :: polls device (cursor b) (S k)
            ++ drains device (cursor b + S k) (array_length self)
            ++ [Wr ACK_OFFSET 0x0]
    /\ cursor b' = (cursor b + S k + array_length self)%nat
    /\ out = drained device (cursor b + S k) (array_length self)
    /\ length out = array_length self
    /\ reads (drains device (cursor b + S k) (array_length self))
       = zip ((fun i => OUTPUT_DATA_OFFSET + Z.of_nat i * 4)
                <$> seq 0 (array_length self)) out.
Proof.
  intros Hrun.
  destruct (run_bus_process_ret _ _ _ _ _ Hrun) as (k & Hk & -> & ->).
  exists k. split; [exact Hk|]. split; [reflexivity|]. split; [reflexivity|].
  split; [reflexivity|]. split.
  - unfold drained. rewrite length_fmap, length_seq. reflexivity.
  - unfold drains, drained. generalize (seq 0 (array_length self)) as xs.
    induction xs as [|x xs IH]; [reflexivity|]. cbn. f_equal. exact IH.
Qed.

Lemma process_accesses_in_order_witness :
  exists k,
    first_ack late_device (cursor idle_bus) k
    /\ [Wr CMD_OFFSET 1; Rd ACK_OFFSET 0; Rd ACK_OFFSET 0; Rd ACK_OFFSET 1;
        Rd 0x400 0; Rd 0x404 0; Wr ACK_OFFSET 0]
       = journal idle_bus
         ++ Wr CMD_OFFSET 0x1
            :: polls late_device (cursor idle_bus) (S k)
            ++ drains late_device (cursor idle_bus + S k) 2
            ++ [Wr ACK_OFFSET 0x0]
    /\ 5%nat = (cursor idle_bus + S k + 2)%nat
    /\ [0; 0] = drained late_device (cursor idle_bus + S k) 2
    /\ length [0; 0] = 2%nat
    /\ reads (drains late_device (cursor idle_bus + S k) 2)
       = zip ((fun i => OUTPUT_DATA_OFFSET + Z.of_nat i * 4) <$> seq 0 2) [0; 0].
Proof.
  apply (process_accesses_in_order {| array_length := 2 |} late_device idle_bus
           {| cursor := 5;
              journal := [Wr CMD_OFFSET 1; Rd ACK_OFFSET 0; Rd ACK_OFFSET 0;
                          Rd ACK_OFFSET 1; Rd 0x400 0; Rd 0x404 0;
                          Wr ACK_OFFSET 0] |}
           [0; 0]).
  apply (settles_eutt 20). vm_compute. reflexivity.
Defined.

(** X3: what [process] returns on a window only the host touches.  When the
    acknowledge register holds [1] the call returns a list of [array_length]
    words whose element [i] is the word the window held at [0x400 + i * 4]
    before the call, except element 256, whose offset is the command offset
    and which is the [0x1] that [process] itself has just written. *)
Theorem process_returns_window_words (self : my_new_accelerator)
    (w : gmap Z Z) :
  peek w ACK_OFFSET = 1 ->
  exists w' out,
    interp_state h_mmio (process self) w ≈ Ret (w', out)
    /\ length out = array_length self
    /\ (forall i, (i < array_length self)%nat -> i <> 256%nat ->
          out !! i = Some (peek w (OUTPUT_DATA_OFFSET + Z.of_nat i * 4)))
    /\ ((256 < array_length self)%nat -> out !! 256%nat = Some 0x1).
Proof.
  intros Hack. eexists. eexists. split; [|split; [|split]].
  - rewrite (run_mmio_process self w Hack). reflexivity.
  - unfold fetch_words. rewrite length_fmap, length_seq. reflexivity.
  - intros i Hi Hne. unfold fetch_words.
    rewrite list_lookup_fmap, lookup_seq_lt by exact Hi. cbn.
    rewrite peek_insert_ne by (unfold CMD_OFFSET, OUTPUT_DATA_OFFSET; lia).
    reflexivity.
  - intros Hlong. unfold fetch_words.
    rewrite list_lookup_fmap, lookup_seq_lt by exact Hlong. cbn.
    f_equal. apply peek_insert_eq.
Qed.

Lemma process_returns_window_words_witness :
  exists w' out,
    interp_state h_mmio (process {| array_length := 257 |})
      (<[OUTPUT_DATA_OFFSET := 5]> acked_window)
    ≈ Ret (w', out)
    /\ length out = 257%nat
    /\ (forall i, (i < 257)%nat -> i <> 256%nat ->
          out !! i
          = Some (peek (<[OUTPUT_DATA_OFFSET := 5]> acked_window)
                       (OUTPUT_DATA_OFFSET + Z.of_nat i * 4)))
    /\ ((256 < 257)%nat -> out !! 256%nat = Some 0x1).
Proof.
  apply (process_returns_window_words {| array_length := 257 |}
           (<[OUTPUT_DATA_OFFSET := 5]> acked_window)).
  reflexivity.
Defined.

(** X4: [process] consumes the acknowledge.  On a window only the host
    touches, two [process] calls in a row never return, whatever the window
    holds and whatever was loaded: the first call, if it returns, leaves [0]
    in the acknowledge register, which the second polls for ever. *)
Theorem process_twice_blocks (self : my_new_accelerator) (w : gmap Z Z) :
  interp_state h_mmio (process self;; process self) w ≈ ITree.spin.
Proof.
  rewrite interp_state_bind.
  destruct (decide (peek w ACK_OFFSET = 1)) as [Hack|Hack].
  - rewrite (run_mmio_process self w Hack), bind_ret_l. cbn.
    apply run_mmio_process_spin. rewrite peek_insert_eq. discriminate.
  - rewrite (run_mmio_process_spin self w Hack). apply spin_bind.
Qed.

(** X5: without the accelerator the notebook hangs.  On a window only the
    host touches whose acknowledge register does not hold [1], construction,
    [load_data] of at most 513 words and [process] never return: none of the
    three writes [1] to the acknowledge offset. *)
Theorem process_hangs_without_device (data : list Z) (w : gmap Z Z) :
  (length data <= 513)%nat ->
  peek w ACK_OFFSET <> 1 ->
  interp_state h_mmio
    (acc <- __init__;; acc <- load_data acc data;; process acc) w
  ≈ ITree.spin.
Proof.
  intros Hfit Hack.
  rewrite interp_state_bind, run_mmio_init, bind_ret_l. cbn [fst snd].
  rewrite interp_state_bind, run_mmio_load_data, bind_ret_l. cbn [fst snd].
  apply run_mmio_process_spin.
  rewrite peek_store_words_ne
    by (intros i Hi; unfold ACK_OFFSET, INPUT_DATA_OFFSET; lia).
  rewrite peek_insert_ne by (unfold ACK_OFFSET, CMD_OFFSET; lia).
  exact Hack.
Qed.

Lemma process_hangs_without_device_witness :
  interp_state h_mmio
    (acc <- __init__;; acc <- load_data acc [7; 8];; process acc) ∅
  ≈ ITree.spin.
Proof.
  apply (process_hangs_without_device [7; 8] ∅).
  - cbn. lia.
  - discriminate.
Defined.

(** X6: a long input can acknowledge itself.  Element 513 of the input is
    written to [0x804], the acknowledge offset; when it is [1], construction,
    [load_data] and [process] return with no device at all, and the result is
    made of the input itself: its element [i], for [i] other than 256, is
    element [256 + i] of the input wherever the input has one. *)
Theorem long_input_acknowledges_itself (data : list Z) (w : gmap Z Z) :
  data !! 513%nat = Some 1 ->
  exists w' out,
    interp_state h_mmio
      (acc <- __init__;; acc <- load_data acc data;; process acc) w
    ≈ Ret (w', out)
    /\ length out = length data
    /\ forall i d, i <> 256%nat -> data !! (256 + i)%nat = Some d ->
         out !! i = Some d.
Proof.
  intros H513. eexists. eexists. split; [|split].
  - rewrite interp_state_bind, run_mmio_init, bind_ret_l. cbn [fst snd].
    rewrite interp_state_bind, run_mmio_load_data, bind_ret_l. cbn [fst snd].
    rewrite run_mmio_process; [reflexivity|].
    apply (peek_store_words_lt INPUT_DATA_OFFSET data _ 513 1 H513).
  - unfold fetch_words. cbn [array_length].
    rewrite length_fmap, length_seq. reflexivity.
  - intros i d Hne Hd. unfold fetch_words. cbn [array_length].
    assert (Hi : (256 + i < length data)%nat) by (apply lookup_lt_Some in Hd; exact Hd).
    rewrite list_lookup_fmap, lookup_seq_lt by lia. cbn. f_equal.
    rewrite peek_insert_ne by (unfold CMD_OFFSET, OUTPUT_DATA_OFFSET; lia).
    replace (OUTPUT_DATA_OFFSET + Z.of_nat i * 4)
      with (INPUT_DATA_OFFSET + Z.of_nat (256 + i) * 4)
      by (unfold OUTPUT_DATA_OFFSET, INPUT_DATA_OFFSET; lia).
    apply peek_store_words_lt, Hd.
Qed.

Lemma long_input_acknowledges_itself_witness :
  exists w' out,
    interp_state h_mmio
      (acc <- __init__;; acc <- load_data acc (replicate 514 1);; process acc) ∅
    ≈ Ret (w', out)
    /\ length out = length (replicate 514 1)
    /\ forall i d, i <> 256%nat -> replicate 514 1 !! (256 + i)%nat = Some d ->
         out !! i = Some d.
Proof.
  apply (long_input_acknowledges_itself (replicate 514 1) ∅).
  vm_compute. reflexivity.
Defined.

Lemma Forall_word_aligned_stored base g n :
  base mod 4 = 0 -> Forall word_aligned (stored base g n).
Proof.
  intros Hbase. unfold stored. apply Forall_fmap, Forall_forall.
  intros i _. unfold word_aligned. cbn.
  rewrite Z.add_mod, Hbase, Z.mod_mul by lia. reflexivity.
Qed.

Lemma Forall_word_aligned_process_journal device c k n :
  Forall word_aligned (process_journal device c k n).
Proof.
  unfold process_journal, polls, drains.
  apply Forall_cons. split; [reflexivity|].
  rewrite !Forall_app. split; [|split].
  - apply Forall_fmap, Forall_forall. intros i _. reflexivity.
  - apply Forall_fmap, Forall_forall. intros i _. unfold word_aligned. cbn.
    unfold OUTPUT_DATA_OFFSET.
    rewrite Z.add_mod, Z.mod_mul by lia. reflexivity.
  - apply Forall_cons. split; [reflexivity|]. apply Forall_nil_2.
Qed.

(** X7: every access is word aligned.  If all the accesses made so far went
    to offsets that are multiples of 4, so did all the accesses after
    construction, after [load_data] of any input, after the simulation cell
    on any input and after any [process] call that returns, whatever the
    device shows. *)
Theorem accesses_stay_word_aligned (device : nat -> Z -> Z) (b : bus) :
  Forall word_aligned (journal b) ->
  (forall b' acc,
     interp_state (h_bus device) __init__ b ≈ Ret (b', acc) ->
     Forall word_aligned (journal b'))
  /\ (forall self data b' acc,
        interp_state (h_bus device) (load_data self data) b ≈ Ret (b', acc) ->
        Forall word_aligned (journal b'))
  /\ (forall data b' u,
        interp_state (h_bus device) (simulate_accelerator data) b ≈ Ret (b', u) ->
        Forall word_aligned (journal b'))
  /\ (forall self b' out,
        interp_state (h_bus device) (process self) b ≈ Ret (b', out) ->
        Forall word_aligned (journal b')).
Proof.
  intros Hb. split; [|split; [|split]].
  - intros b' acc Hrun. rewrite run_bus_init in Hrun.
    apply eutt_inv_Ret in Hrun. injection Hrun as <- _. cbn.
    apply Forall_app. split; [exact Hb|].
    apply Forall_cons. split; [reflexivity|]. apply Forall_nil_2.
  - intros self data b' acc Hrun. rewrite run_bus_load_data in Hrun.
    apply eutt_inv_Ret in Hrun. injection Hrun as <- _. cbn.
    apply Forall_app. split; [exact Hb|].
    apply Forall_word_aligned_stored. reflexivity.
  - intros data b' u Hrun. unfold simulate_accelerator in Hrun.
    rewrite interp_state_bind, run_bus_store, bind_ret_l in Hrun.
    cbn [fst snd] in Hrun. rewrite run_bus_write in Hrun.
    apply eutt_inv_Ret in Hrun. injection Hrun as <-. cbn.
    rewrite !Forall_app. split; [split; [exact Hb|]|].
    + apply Forall_word_aligned_stored. reflexivity.
    + apply Forall_cons. split; [reflexivity|]. apply Forall_nil_2.
  - intros self b' out Hrun.
    destruct (run_bus_process_ret _ _ _ _ _ Hrun) as (k & _ & -> & _). cbn.
    apply Forall_app. split; [exact Hb|].
    apply Forall_word_aligned_process_journal.
Qed.

Lemma accesses_stay_word_aligned_witness :
  (forall b' acc,
     interp_state (h_bus late_device) __init__ idle_bus ≈ Ret (b', acc) ->
     Forall word_aligned (journal b'))
  /\ (forall self data b' acc,
        interp_state (h_bus late_device) (load_data self data) idle_bus
        ≈ Ret (b', acc) ->
        Forall word_aligned (journal b'))
  /\ (forall data b' u,
        interp_state (h_bus late_device) (simulate_accelerator data) idle_bus
        ≈ Ret (b', u) ->
        Forall word_aligned (journal b'))
  /\ (forall self b' out,
        interp_state (h_bus late_device) (process self) idle_bus ≈ Ret (b', out) ->
        Forall word_aligned (journal b')).
Proof.
  apply (accesses_stay_word_aligned late_device idle_bus). apply Forall_nil_2.
Defined.

Lemma Forall_in_window_stored base g n :
  0 <= base -> base + Z.of_nat n * 4 <= ADDRESS_LENGTH ->
  Forall in_window (stored base g n).
Proof.
  intros Hbase Hend. unfold stored. apply Forall_fmap, Forall_forall.
  intros i Hi. apply elem_of_seq in Hi. unfold in_window. cbn. lia.
Qed.

Lemma Forall_in_window_process_journal device c k n :
  (n <= 768)%nat -> Forall in_window (process_journal device c k n).
Proof.
  intros Hn. unfold process_journal, polls, drains.
  apply Forall_cons. split; [unfold in_window, ADDRESS_LENGTH, CMD_OFFSET; cbn; lia|].
  rewrite !Forall_app. split; [|split].
  - apply Forall_fmap, Forall_forall. intros i _.
    unfold in_window, ADDRESS_LENGTH, ACK_OFFSET. cbn. lia.
  - apply Forall_fmap, Forall_forall. intros i Hi. apply elem_of_seq in Hi.
    unfold in_window, ADDRESS_LENGTH, OUTPUT_DATA_OFFSET. cbn. lia.
  - apply Forall_cons. split; [|apply Forall_nil_2].
    unfold in_window, ADDRESS_LENGTH, ACK_OFFSET. cbn. lia.
Qed.

(** X8: when the accesses stay inside the mapped window.  If all the accesses
    made so far went to offsets in [[0, ADDRESS_LENGTH)], so did all the
    accesses after construction, after [load_data] of at most 1024 words and
    after a returning [process] call with an [array_length] of at most 768.
    Both bounds are sharp: [load_data] of an input with an element 1024
    writes it at offset [ADDRESS_LENGTH], and a returning [process] call with
    a larger [array_length] reads at offset [ADDRESS_LENGTH]. *)
Theorem accesses_stay_in_window (device : nat -> Z -> Z) (b : bus) :
  Forall in_window (journal b) ->
  (forall b' acc,
     interp_state (h_bus device) __init__ b ≈ Ret (b', acc) ->
     Forall in_window (journal b'))
  /\ (forall self data b' acc,
        interp_state (h_bus device) (load_data self data) b ≈ Ret (b', acc) ->
        ((length data <= 1024)%nat -> Forall in_window (journal b'))
        /\ (forall d, data !! 1024%nat = Some d ->
              Wr ADDRESS_LENGTH d ∈ journal b'
              /\ ~ Forall in_window (journal b')))
  /\ (forall self b' out,
        interp_state (h_bus device) (process self) b ≈ Ret (b', out) ->
        ((array_length self <= 768)%nat -> Forall in_window (journal b'))
        /\ ((768 < array_length self)%nat ->
            (exists v, Rd ADDRESS_LENGTH v ∈ journal b')
            /\ ~ Forall in_window (journal b'))).
Proof.
  intros Hb.
  assert (Hout : forall (a : access) (j : list access),
            access_offset a = ADDRESS_LENGTH -> a ∈ j -> ~ Forall in_window j).
  { intros a j Ha Hin Hall. rewrite Forall_forall in Hall.
    specialize (Hall a Hin). unfold in_window in Hall. lia. }
  split; [|split].
  - intros b' acc Hrun. rewrite run_bus_init in Hrun.
    apply eutt_inv_Ret in Hrun. injection Hrun as <- _. cbn.
    apply Forall_app. split; [exact Hb|].
    apply Forall_cons. split; [|apply Forall_nil_2].
    unfold in_window, ADDRESS_LENGTH, CMD_OFFSET. cbn. lia.
  - intros self data b' acc Hrun. rewrite run_bus_load_data_stores in Hrun.
    apply eutt_inv_Ret in Hrun. injection Hrun as <- _. cbn. split.
    + intros Hfit. apply Forall_app. split; [exact Hb|].
      rewrite <- stored_stores. apply Forall_in_window_stored.
      * reflexivity.
      * unfold INPUT_DATA_OFFSET, ADDRESS_LENGTH. lia.
    + intros d Hd.
      assert (Hin : Wr ADDRESS_LENGTH d ∈ journal b ++ stores INPUT_DATA_OFFSET data).
      { apply elem_of_app. right. apply list_elem_of_lookup. exists 1024%nat.
        apply (lookup_stores INPUT_DATA_OFFSET data 1024 d Hd). }
      split; [exact Hin|]. exact (Hout (Wr ADDRESS_LENGTH d) _ eq_refl Hin).
  - intros self b' out Hrun.
    destruct (run_bus_process_ret _ _ _ _ _ Hrun) as (k & _ & -> & _). cbn. split.
    + intros Hfit. apply Forall_app. split; [exact Hb|].
      apply Forall_in_window_process_journal, Hfit.
    + intros Hlong.
      assert (Hin : Rd ADDRESS_LENGTH
                      (device (cursor b + S k + 768)%nat ADDRESS_LENGTH)
                    ∈ journal b
                      ++ process_journal device (cursor b) k (array_length self)).
      { apply elem_of_app. right. unfold process_journal.
        apply list_elem_of_further, elem_of_app. right. apply elem_of_app. left.
        unfold drains. apply list_elem_of_fmap. exists 768%nat.
        split; [reflexivity|]. apply elem_of_seq. lia. }
      split; [eexists; exact Hin|]. exact (Hout (Rd ADDRESS_LENGTH _) _ eq_refl Hin).
Qed.

Lemma accesses_stay_in_window_witness :
  (forall b' acc,
     interp_state (h_bus late_device) __init__ idle_bus ≈ Ret (b', acc) ->
     Forall in_window (journal b'))
  /\ (forall self data b' acc,
        interp_state (h_bus late_device) (load_data self data) idle_bus
        ≈ Ret (b', acc) ->
        ((length data <= 1024)%nat -> Forall in_window (journal b'))
        /\ (forall d, data !! 1024%nat = Some d ->
              Wr ADDRESS_LENGTH d ∈ journal b'
              /\ ~ Forall in_window (journal b')))
  /\ (forall self b' out,
        interp_state (h_bus late_device) (process self) idle_bus ≈ Ret (b', out) ->
        ((array_length self <= 768)%nat -> Forall in_window (journal b'))
        /\ ((768 < array_length self)%nat ->
            (exists v, Rd ADDRESS_LENGTH v ∈ journal b')
            /\ ~ Forall in_window (journal b'))).
Proof.
  apply (accesses_stay_in_window late_device idle_bus). apply Forall_nil_2.
Defined.

(** X9: the simulation cell on any input.  For every input of at most 256
    words, each of them a 32-bit word whose successor is a 32-bit word too,
    [load_data], the simulation cell on the same input and [process] return
    every input word plus one, in order; the words returned are 32-bit
    words. *)
Theorem simulated_cycle_adds_one (self : my_new_accelerator)
    (input_data : list Z) (w : gmap Z Z) :
  (length input_data <= 256)%nat ->
  Forall (fun x => u32 x /\ u32 (x + 1)) input_data ->
  exists w',
    interp_state h_mmio
      (acc <- load_data self input_data;;
       simulate_accelerator input_data;;
       process acc) w
    ≈ Ret (w', (fun x => x + 1) <$> input_data)
    /\ Forall u32 ((fun x => x + 1) <$> input_data).
Proof.
  intros Hfit Hwords. eexists. split.
  - rewrite interp_state_bind, run_mmio_load_data, bind_ret_l. cbn [fst snd].
    rewrite interp_state_bind, run_mmio_simulate_accelerator,
      run_mmio_device_reply, bind_ret_l. cbn [fst snd].
    rewrite run_mmio_process by apply peek_insert_eq. cbn [array_length].
    rewrite <- (length_fmap (fun x => x + 1) input_data) at 1.
    rewrite fetch_reply by (rewrite length_fmap; exact Hfit). reflexivity.
  - apply Forall_fmap. eapply Forall_impl; [exact Hwords|].
    intros x [_ Hx]. exact Hx.
Qed.

Lemma simulated_cycle_adds_one_witness :
  exists w',
    interp_state h_mmio
      (acc <- load_data {| array_length := 0 |} [7; 4294967294];;
       simulate_accelerator [7; 4294967294];;
       process acc) acked_window
    ≈ Ret (w', (fun x => x + 1) <$> [7; 4294967294])
    /\ Forall u32 ((fun x => x + 1) <$> [7; 4294967294]).
Proof.
  apply (simulated_cycle_adds_one {| array_length := 0 |} [7; 4294967294]
           acked_window).
  - cbn. lia.
  - repeat constructor; unfold u32; lia.
Defined.

Lemma lookup_store_words base data w offset :
  store_words base data w !! offset
  = match word_of_region base (length data) offset with
    | inleft (exist _ i _) => Some (subscript data i)
    | inright _ => w !! offset
    end.
Proof.
  unfold store_words.
  destruct (word_of_region base (length data) offset) as [(i & Hi & ->)|Hout].
  - apply lookup_store_upto_lt, Hi.
  - apply lookup_store_upto_ne, Hout.
Qed.

(** X10: the accelerator may answer before or after the load.  For an input
    of at most 256 words, [load_data] followed by the device's reply and the
    device's reply followed by [load_data] leave the same window and the same
    object: the input region, the output region and the acknowledge register
    do not overlap. *)
Theorem load_and_reply_commute (self : my_new_accelerator)
    (data values : list Z) (w : gmap Z Z) :
  (length data <= 256)%nat ->
  exists w',
    interp_state h_mmio
      (acc <- load_data self data;; device_reply values;; Ret acc) w
    ≈ Ret (w', {| array_length := length data |})
    /\ interp_state h_mmio (device_reply values;; load_data self data) w
       ≈ Ret (w', {| array_length := length data |}).
Proof.
  intros Hfit.
  exists (store_words INPUT_DATA_OFFSET data
            (<[ACK_OFFSET := 1]> (store_words OUTPUT_DATA_OFFSET values w))).
  split.
  - rewrite interp_state_bind, run_mmio_load_data, bind_ret_l. cbn [fst snd].
    rewrite interp_state_bind, run_mmio_device_reply, bind_ret_l. cbn [fst snd].
    rewrite interp_state_ret.
    match goal with |- Ret (?x, _) ≈ Ret (?y, _) => enough (x = y) as -> by reflexivity end.
    apply map_eq. intros offset.
    rewrite (lookup_store_words INPUT_DATA_OFFSET data _ offset).
    destruct (word_of_region INPUT_DATA_OFFSET (length data) offset)
      as [(i & Hi & ->)|Hout].
    + rewrite lookup_insert_ne
        by (unfold ACK_OFFSET, INPUT_DATA_OFFSET; lia).
      unfold store_words at 1.
      rewrite lookup_store_upto_ne
        by (intros j Hj; unfold OUTPUT_DATA_OFFSET, INPUT_DATA_OFFSET; lia).
      apply lookup_store_upto_lt, Hi.
    + destruct (decide (offset = ACK_OFFSET)) as [->|Hack].
      * rewrite !lookup_insert_eq. reflexivity.
      * rewrite !lookup_insert_ne by congruence.
        rewrite !(lookup_store_words OUTPUT_DATA_OFFSET values _ offset).
        destruct (word_of_region OUTPUT_DATA_OFFSET (length values) offset)
          as [(i & Hi & ->)|Hout']; [reflexivity|].
        unfold store_words. apply lookup_store_upto_ne, Hout.
  - rewrite interp_state_bind, run_mmio_device_reply, bind_ret_l. cbn [fst snd].
    rewrite run_mmio_load_data. reflexivity.
Qed.

Lemma load_and_reply_commute_witness :
  exists w',
    interp_state h_mmio
      (acc <- load_data {| array_length := 0 |} [7; 8];;
       device_reply [70; 80];;
       Ret acc) acked_window
    ≈ Ret (w', {| array_length := length [7; 8] |})
    /\ interp_state h_mmio
         (device_reply [70; 80];; load_data {| array_length := 0 |} [7; 8])
         acked_window
       ≈ Ret (w', {| array_length := length [7; 8] |}).
Proof.
  apply (load_and_reply_commute {| array_length := 0 |} [7; 8] [70; 80]
           acked_window).
  cbn. lia.
Defined.
